(** * Spark: the Apify bridge handlers of [server/routes/apify.ts]

    A shallow embedding of the three request handlers with algorithmic
    content ([listActors], [getActorSchema], [executeActor]) and the
    properties the specification states about them.

    The handlers are asynchronous TypeScript functions that talk to a
    remote platform through [fetch].  They are embedded as computations
    in a small state-and-exception monad: the state records every request
    that was issued (in order) and the wall clock; an exception is a
    rejected promise or a thrown error.  What the remote platform answers
    is an explicit parameter of each handler (its environment).

    Response bodies are taken at the types [shared/api.ts] declares for
    them, reduced to the fields the handlers read.  Console output is
    not part of the model, and neither is the text of a request or
    response body: a request carries the value that [JSON.stringify]
    is given, and [response.text()], read only to be logged, is taken to
    resolve. *)

From Stdlib Require Import ZArith QArith Qround.
From stdpp Require Import base list strings gmap pretty.

Local Open Scope Z_scope.
Local Set Warnings "-register-all".

(** ** JavaScript values

    JSON documents as JavaScript sees them once parsed.  An object is
    the list of its entries in the order [Object.entries] enumerates
    them.  A [string] stands for the sequence of code units of the
    JavaScript string.  A number is the rational it denotes: arithmetic
    on numbers is exact here, where JavaScript rounds to the nearest
    double. *)

Inductive JValue : Type :=
  | JNull
  | JBool (b : bool)
  | JNum (n : Q)
  | JStr (s : string)
  | JArr (items : list JValue)
  | JObj (entries : list (string * JValue)).

(** [typeof v] *)
Definition typeof (v : JValue) : string :=
  match v with
  | JNull => "object"
  | JBool _ => "boolean"
  | JNum _ => "number"
  | JStr _ => "string"
  | JArr _ => "object"
  | JObj _ => "object"
  end.

(** [Array.isArray(v)] *)
Definition Array_isArray (v : JValue) : bool :=
  match v with JArr _ => true | _ => false end.

(** Truthiness of a string and of a parsed JSON value. *)
Definition truthy_string (s : string) : bool :=
  match s with "" => false | _ => true end.

Definition truthy (v : JValue) : bool :=
  match v with
  | JNull => false
  | JBool b => b
  | JNum n => negb (Qeq_bool n 0)
  | JStr s => truthy_string s
  | JArr _ => true
  | JObj _ => true
  end.

(** [obj[key] = v]: overwrite in place, or add as the last entry. *)
Fixpoint obj_set (key : string) (v : JValue)
    (entries : list (string * JValue)) : list (string * JValue) :=
  match entries with
  | [] => [(key, v)]
  | (k, w) :: rest =>
      if decide (k = key) then (k, v) :: rest
      else (k, w) :: obj_set key v rest
  end.

(** [obj[key] = v] with a key computed at run time, on an object
    created by a literal.  The key [__proto__] names the accessor such
    an object inherits from [Object.prototype]: the assignment calls its
    setter, which replaces the prototype of the object when [v] is an
    object or [null] and does nothing otherwise; in either case the
    object gets no entry.  Every other assignment sets an entry. *)
Definition obj_assign (key : string) (v : JValue)
    (entries : list (string * JValue)) : list (string * JValue) :=
  if decide (key = "__proto__") then entries else obj_set key v entries.

(** [s.replace(pat, rep)] with a string pattern: the first occurrence. *)
Fixpoint drop_prefix (pat s : string) : option string :=
  match pat, s with
  | EmptyString, _ => Some s
  | String a pat', String b s' =>
      if decide (a = b) then drop_prefix pat' s' else None
  | String _ _, EmptyString => None
  end.

Fixpoint String_replace (pat rep s : string) : string :=
  match drop_prefix pat s with
  | Some rest => rep +:+ rest
  | None =>
      match s with
      | EmptyString => EmptyString
      | String c s' => String c (String_replace pat rep s')
      end
  end.

(** ** HTTP *)

Inductive Method := GET | POST.

Record Request := {
  method : Method;
  url : string;
  authorization : string;
  content : option JValue
}.

(** A response whose body, read with [.json()], has type [T]; [None]
    when reading the body rejects.  [text_readable] tells whether
    reading the body with [.text()] settles; the handlers send the
    string read to the console only. *)
Record Response (T : Type) := {
  status : Z;
  statusText : string;
  json : option T;
  text_readable : bool
}.
Arguments status {T} _.
Arguments statusText {T} _.
Arguments json {T} _.
Arguments text_readable {T} _.

(** [response.ok] *)
Definition ok {T} (r : Response T) : bool :=
  (200 <=? status r)%Z && (status r <=? 299)%Z.

(** What a [fetch] settles to. *)
Inductive Fetched (T : Type) :=
  | Rejected
  | Responded (r : Response T).
Arguments Rejected {T}.
Arguments Responded {T} r.

(** What a handler sends back: [res.status(code).json(payload)]. *)
Record Reply (T : Type) := { code : Z; payload : T }.
Arguments code {T} _.
Arguments payload {T} _.

(** ** The effect monad *)

Record World := { clock : Z; log : list Request }.

(** What is thrown: by a [fetch] that rejects, by a [.json()] or a
    [.text()] that rejects. *)
Inductive Exn := FetchFailed | BodyUnreadable.

(** How a computation ends.  [OutOfFuel] is not a behaviour of the
    program: it marks a loop of the model cut short by its fuel, and
    [executeActor_outcome] below shows that no invocation ends that
    way. *)
Inductive Outcome (A : Type) :=
  | Ret (a : A)
  | Throw (e : Exn)
  | OutOfFuel.
Arguments Ret {A} a.
Arguments Throw {A} e.
Arguments OutOfFuel {A}.

Definition M (A : Type) : Type := World -> Outcome A * World.

Definition ret {A} (a : A) : M A := fun w => (Ret a, w).

Definition throw {A} (e : Exn) : M A := fun w => (Throw e, w).

Definition bind {A B} (m : M A) (k : A -> M B) : M B :=
  fun w =>
    match m w with
    | (Ret a, w') => k a w'
    | (Throw e, w') => (Throw e, w')
    | (OutOfFuel, w') => (OutOfFuel, w')
    end.

(** [try { body } catch (e) { handler }] *)
Definition try_catch {A} (body : M A) (handler : Exn -> M A) : M A :=
  fun w =>
    match body w with
    | (Ret a, w') => (Ret a, w')
    | (Throw e, w') => handler e w'
    | (OutOfFuel, w') => (OutOfFuel, w')
    end.

Declare Scope js_scope.
Delimit Scope js_scope with js.
Notation "x <- m ;; k" := (bind m (fun x => k))
  (at level 100, m at next level, right associativity) : js_scope.
Notation "m ;;; k" := (bind m (fun _ => k))
  (at level 100, right associativity) : js_scope.
Local Open Scope js_scope.

(** Issuing a request records it; the promise is settled by the
    environment. *)
Definition start_fetch {T} (rq : Request) (answer : Fetched T) : M (Fetched T) :=
  fun w => (Ret answer, {| clock := clock w; log := log w ++ [rq] |}).

Definition await {T} (p : Fetched T) : M (Response T) :=
  match p with
  | Rejected => throw FetchFailed
  | Responded r => ret r
  end.

Definition fetch {T} (rq : Request) (answer : Fetched T) : M (Response T) :=
  p <- start_fetch rq answer ;; await p.

(** [await response.json()] *)
Definition read_json {T} (r : Response T) : M T :=
  match json r with
  | Some b => ret b
  | None => throw BodyUnreadable
  end.

(** [await response.text()] *)
Definition read_text {T} (r : Response T) : M unit :=
  if text_readable r then ret tt else throw BodyUnreadable.

(** [Date.now()] *)
Definition Date_now : M Z := fun w => (Ret (clock w), w).

(** Time passing while the handler is suspended. *)
Definition elapse (ms : Z) : M unit :=
  fun w => (Ret tt, {| clock := clock w + ms; log := log w |}).

Definition send {T} (c : Z) (body : T) : M (Reply T) :=
  ret {| code := c; payload := body |}.

(** ** Shared data ([shared/api.ts]) *)

(** Field names are those of the interfaces; where two interfaces
    share a name the later one takes a prefix ([s_title], [run_id]), and
    [stats.totalRuns] is the field [totalRuns]. *)
Record ApifyActor := {
  id : string;
  name : string;
  title : string;
  description : option string;
  isPublic : bool;
  username : string;
  createdAt : string;
  modifiedAt : string;
  totalRuns : Q
}.

Record ApifyInputSchema := {
  s_title : string;
  s_type : string;
  s_description : option string;
  s_properties : list (string * JValue);
  s_required : option (list string)
}.

Record ApifyActorVersion := {
  versionNumber : string;
  buildTag : string;
  inputSchema : option ApifyInputSchema
}.

Record TaggedBuild := { buildId : string; buildNumber : string }.

Record PricingInfo := { pricePerUnitUsd : Q; trialMinutes : Q }.

(** [ApifyActorDetailResponse.data] *)
Record ApifyActorDetail := {
  actor : ApifyActor;
  versions : option (list ApifyActorVersion);
  taggedBuilds : option (option TaggedBuild);
  exampleRunInput : option string;
  pricingInfos : option (list PricingInfo);
  categories : option (list string)
}.

Inductive RunStatus :=
  | READY | RUNNING | SUCCEEDED | FAILED | TIMED_OUT | ABORTED.

Global Instance RunStatus_eq_dec : EqDecision RunStatus.
Proof. solve_decision. Defined.

Record RunStats := {
  inputBytes : option Q;
  outputBytes : option Q;
  runTimeSecs : option Q
}.

Record RunOptions := { build : string; timeoutSecs : Q; memoryMbytes : Q }.

Record RunMeta := { origin : string; clientIp : string; userAgent : string }.

Record ApifyRun := {
  run_id : string;
  actId : string;
  userId : string;
  startedAt : string;
  finishedAt : option string;
  run_status : RunStatus;
  run_stats : RunStats;
  options : RunOptions;
  meta : RunMeta
}.

Definition ApifyDatasetItem : Type := list (string * JValue).

Record ListActorsResponse := {
  actors : list ApifyActor;
  la_error : option string
}.

Record GetActorSchemaResponse := {
  schema : option ApifyInputSchema;
  gs_error : option string
}.

Record ExecuteActorResponse := {
  run : option ApifyRun;
  results : option (list ApifyDatasetItem);
  ex_error : option string
}.

Definition APIFY_API_BASE : string := "https://api.apify.com/v2".

(** The [Authorization] header of the incoming request, and what the
    handlers make of it:
    [req.headers.authorization?.replace("Bearer ", "")]. *)
Definition bearer_token (header : option string) : option string :=
  String_replace "Bearer " "" <$> header.

Definition present (s : option string) : bool :=
  match s with Some t => truthy_string t | None => false end.

Definition get (key : string) (path : string) : Request :=
  {| method := GET; url := APIFY_API_BASE +:+ path;
     authorization := "Bearer " +:+ key; content := None |}.

(** ** CatalogMerger: [listActors] *)

(** What the platform answers to the requests of one call.  A listing
    body is its [data.items], a detail body its [data]. *)
Record CatalogEnv := {
  owned_listing : Fetched (list ApifyActor);
  accessible_listing : Fetched (list ApifyActor);
  actor_detail : string -> Fetched ApifyActorDetail
}.

Definition popularActors : list string :=
  ["nwua9Gu5YrADL7ZDj"; "apify/web-scraper";
   "apify/google-search-results-scraper"].

(** One turn of the loop over [popularActors]. *)
Definition add_popular (env : CatalogEnv) (key actorId : string)
    (allActors : list ApifyActor) : M (list ApifyActor) :=
  let existingIds : gset string := list_to_set (id <$> allActors) in
  if decide (actorId ∈ existingIds) then ret allActors
  else
    try_catch
      (actorResponse <- fetch (get key ("/acts/" +:+ actorId))
                              (actor_detail env actorId) ;;
       if ok actorResponse then
         actorData <- read_json actorResponse ;;
         ret (allActors ++ [actor actorData])
       else ret allActors)
      (fun _ => ret allActors).

Fixpoint add_populars (env : CatalogEnv) (key : string)
    (ids : list string) (allActors : list ApifyActor) : M (list ApifyActor) :=
  match ids with
  | [] => ret allActors
  | actorId :: rest =>
      allActors' <- add_popular env key actorId allActors ;;
      add_populars env key rest allActors'
  end.

(** The accessible items that are new with respect to [allActors]. *)
Definition additionalActors (allActors items : list ApifyActor)
    : list ApifyActor :=
  let existingIds : gset string := list_to_set (id <$> allActors) in
  filter (fun a => id a ∉ existingIds) items.

Definition listActors (env : CatalogEnv) (header : option string)
    : M (Reply ListActorsResponse) :=
  let apiKey := bearer_token header in
  if negb (present apiKey) then
    send 401 {| actors := []; la_error := Some "API key is required" |}
  else
    let key := default "" apiKey in
    try_catch
      (p1 <- start_fetch (get key "/acts?my=true&limit=100")
                         (owned_listing env) ;;
       p2 <- start_fetch (get key "/acts?limit=100")
                         (accessible_listing env) ;;
       myActorsResponse <- await p1 ;;
       accessibleActorsResponse <- await p2 ;;
       if negb (ok myActorsResponse) && negb (ok accessibleActorsResponse)
       then
         send (status myActorsResponse)
           {| actors := [];
              la_error := Some ("Failed to fetch actors: "
                                +:+ pretty (status myActorsResponse) +:+ " "
                                +:+ statusText myActorsResponse) |}
       else
         allActors1 <-
           (if ok myActorsResponse then
              items <- read_json myActorsResponse ;; ret ([] ++ items)
            else ret []) ;;
         allActors2 <-
           (if ok accessibleActorsResponse then
              items <- read_json accessibleActorsResponse ;;
              ret (allActors1 ++ additionalActors allActors1 items)
            else ret allActors1) ;;
         allActors3 <- add_populars env key popularActors allActors2 ;;
         send 200 {| actors := allActors3; la_error := None |})
      (fun _ =>
         send 500 {| actors := [];
                     la_error := Some "Failed to fetch actors from Apify" |}).

(** The world a handler starts in: nothing requested yet, the clock at
    [t0]. *)
Definition initial (t0 : Z) : World := {| clock := t0; log := [] |}.

(** ** SchemaSynthesizer and SchemaResolver: [getActorSchema] *)

(** Library functions of the JavaScript runtime the handler calls and
    this development does not define: [JSON.parse] ([None] when it
    throws a [SyntaxError]), [String.prototype.toUpperCase], and the
    rendering of a number inside a template literal. *)
Record Runtime := {
  JSON_parse : string -> option JValue;
  toUpperCase : string -> string;
  Number_toString : Q -> string
}.

(** [Math.round(x)]: the nearest integer, halves upwards. *)
Definition Math_round (x : Q) : Q := inject_Z (Qfloor (x + (1 # 2))).

(** [s.charAt(0)] and [s.slice(1)] *)
Definition charAt0 (s : string) : string :=
  match s with
  | String c _ => String c EmptyString
  | EmptyString => EmptyString
  end.

Definition slice1 (s : string) : string :=
  match s with
  | String _ rest => rest
  | EmptyString => EmptyString
  end.

(** [Object.entries(v)]; [None] when it throws a [TypeError]. *)
Definition Object_entries (v : JValue) : option (list (string * JValue)) :=
  match v with
  | JNull => None
  | JBool _ => Some []
  | JNum _ => Some []
  | JStr s =>
      Some (imap (fun i c => (pretty i, JStr (String c EmptyString)))
                 (String.list_ascii_of_string s))
  | JArr items => Some (imap (fun i x => (pretty i, x)) items)
  | JObj entries => Some entries
  end.

(** [a || b] on strings and on optional strings. *)
Definition or_else (a : string) (b : string) : string :=
  if truthy_string a then a else b.

Definition or_else_opt (a : option string) (b : string) : string :=
  match a with
  | Some s => or_else s b
  | None => b
  end.

(** The property generated for one entry of the example payload
    (lines 368-388). *)
Definition example_property (rt : Runtime) (key : string) (value : JValue)
    : JValue :=
  let property :=
    [("title", JStr (toUpperCase rt (charAt0 key) +:+ slice1 key));
     ("description", JStr ("Input parameter: " +:+ key))] in
  JObj
    (if decide (typeof value = "string") then
       let property := obj_set "type" (JStr "string") property in
       match value with
       | JStr s =>
           if (50 <? Z.of_nat (String.length s))%Z
           then obj_set "format" (JStr "textarea") property
           else property
       | _ => property
       end
     else if decide (typeof value = "number") then
       obj_set "type" (JStr "number") property
     else if decide (typeof value = "boolean") then
       obj_set "type" (JStr "boolean") property
     else if Array_isArray value then
       obj_set "type" (JStr "array") property
     else if decide (typeof value = "object") then
       obj_set "type" (JStr "object") property
     else
       obj_set "type" (JStr "string") property).

(** The loop over [Object.entries(parsed)] filling [schema.properties]
    by [schema.properties[key] = property]. *)
Definition example_properties (rt : Runtime)
    (entries : list (string * JValue)) : list (string * JValue) :=
  foldl (fun properties '(key, value) =>
           obj_assign key (example_property rt key value) properties)
        [] entries.

(** The schema object created from the example before its properties
    are filled in (lines 359-364). *)
Definition example_shell (d : ApifyActorDetail) : ApifyInputSchema :=
  {| s_title := or_else (title (actor d)) "Actor Input";
     s_type := "object";
     s_description :=
       Some (or_else_opt (description (actor d))
                         "Input parameters for this actor");
     s_properties := [];
     s_required := None |}.

Definition with_properties (s : ApifyInputSchema)
    (props : list (string * JValue)) : ApifyInputSchema :=
  {| s_title := s_title s; s_type := s_type s;
     s_description := s_description s;
     s_properties := props; s_required := s_required s |}.

(** The body of the [try] of lines 350-394, with the value [schema]
    holds when the block is left, normally or through its [catch]:
    a [SyntaxError] of [JSON.parse] leaves it untouched, a [TypeError]
    of [Object.entries] happens after the assignment of line 359. *)
Definition synthesize_from_example (rt : Runtime) (d : ApifyActorDetail)
    (body : string) (schema : option ApifyInputSchema)
    : option ApifyInputSchema :=
  if truthy_string body then
    match JSON_parse rt body with
    | None => schema
    | Some parsed =>
        match Object_entries parsed with
        | None => Some (example_shell d)
        | Some entries =>
            Some (with_properties (example_shell d)
                                  (example_properties rt entries))
        end
    end
  else schema.
(** The schema of lines 403-516. *)
Definition predefined_schema : ApifyInputSchema :=
  {| s_title := "Google Maps Scraper";
     s_type := "object";
     s_description := Some "Extract business listings from Google Maps";
     s_properties :=
       [("searchQuery", JObj
           [("title", JStr "ðŸ” Search Query");
            ("type", JStr "string");
            ("description", JStr "Type what you'd normally search for in the Google Maps search bar, like English breakfast or pet shelter. Aim for unique terms for faster processing.");
            ("example", JStr "restaurants")]);
        ("locationQuery", JObj
           [("title", JStr "ðŸ“ Location");
            ("type", JStr "string");
            ("description", JStr "Define location using free text. Simpler formats work best; e.g., use City + Country rather than City + Country + State.");
            ("example", JStr "New York, USA")]);
        ("maxCrawledPlacesPerSearch", JObj
           [("title", JStr "ðŸ’¯ Number of places to extract");
            ("type", JStr "integer");
            ("description", JStr "Number of results you expect to get per each Search term. The higher the number, the longer it will take.");
            ("example", JNum 100%Q);
            ("minimum", JNum 1%Q)]);
        ("language", JObj
           [("title", JStr "ðŸŒ Language");
            ("type", JStr "string");
            ("description", JStr "Results details will show in this language");
            ("default", JStr "en");
            ("enum", JArr [JStr "en"; JStr "es"; JStr "fr"; JStr "de"; JStr "it"; JStr "pt"; JStr "ru"; JStr "ja"; JStr "ko"; JStr "zh-CN"]);
            ("example", JStr "en")]);
        ("categoryFilterWords", JObj
           [("title", JStr "ðŸŽ¢ Place categories ($)");
            ("type", JStr "array");
            ("description", JStr "You can limit the places that are scraped based on the Category filter");
            ("items", JObj
             [("type", JStr "string")]);
            ("example", JArr [JStr "restaurant"; JStr "cafe"; JStr "bar"])]);
        ("searchMatching", JObj
           [("title", JStr "Get exact name matches ($)");
            ("type", JStr "string");
            ("description", JStr "Restrict what places are scraped based on matching their name with provided Search term");
            ("enum", JArr [JStr "all"; JStr "only_includes"; JStr "only_exact"]);
            ("default", JStr "all")]);
        ("placeMinimumStars", JObj
           [("title", JStr "Set a minimum star rating ($)");
            ("type", JStr "string");
            ("description", JStr "Scrape only places with a rating equal to or above the selected stars");
            ("enum", JArr [JStr ""; JStr "two"; JStr "twoAndHalf"; JStr "three"; JStr "threeAndHalf"; JStr "four"; JStr "fourAndHalf"]);
            ("default", JStr "")]);
        ("website", JObj
           [("title", JStr "Scrape places with/without a website ($)");
            ("type", JStr "string");
            ("description", JStr "Use this to exclude places without a website, or vice versa");
            ("enum", JArr [JStr "allPlaces"; JStr "withWebsite"; JStr "withoutWebsite"]);
            ("default", JStr "allPlaces")]);
        ("skipClosedPlaces", JObj
           [("title", JStr "â© Skip closed places ($)");
            ("type", JStr "boolean");
            ("description", JStr "Skip places that are marked as temporary or permanently closed");
            ("default", JBool false)]);
        ("scrapePlaceDetailPage", JObj
           [("title", JStr "Scrape place detail page ($)");
            ("type", JStr "boolean");
            ("description", JStr "Scrape detail pages of each place the Actor finds. This will slow down the Actor since it needs to open another page for each place individually.");
            ("default", JBool false)]);
        ("maxReviews", JObj
           [("title", JStr "Number of reviews to extract ($)");
            ("type", JStr "integer");
            ("description", JStr "Set the number of reviews you expect to get per place");
            ("default", JNum 0%Q);
            ("minimum", JNum 0%Q)]);
        ("maxImages", JObj
           [("title", JStr "Number of additional images to extract ($)");
            ("type", JStr "integer");
            ("description", JStr "Set the number of images per place you expect to scrape");
            ("default", JNum 0%Q);
            ("minimum", JNum 0%Q)]);
        ("countryCode", JObj
           [("title", JStr "ðŸ—º Country");
            ("type", JStr "string");
            ("description", JStr "Set the country where the data extraction should be carried out");
            ("enum", JArr [JStr ""; JStr "us"; JStr "gb"; JStr "ca"; JStr "au"; JStr "de"; JStr "fr"; JStr "es"; JStr "it"; JStr "br"; JStr "mx"; JStr "in"; JStr "jp"]);
            ("default", JStr "")]);
        ("city", JObj
           [("title", JStr "ðŸŒ‡ City");
            ("type", JStr "string");
            ("description", JStr "Enter the city where the data extraction should be carried out");
            ("example", JStr "Pittsburgh")]);
        ("state", JObj
           [("title", JStr "State");
            ("type", JStr "string");
            ("description", JStr "Set a state where the data extraction should be carried out (mainly for US addresses)");
            ("example", JStr "Massachusetts")]);
        ("postalCode", JObj
           [("title", JStr "Postal code");
            ("type", JStr "string");
            ("description", JStr "Set the postal code of the area where the data extraction should be carried out");
            ("example", JStr "10001")])];
     s_required := Some [] |}.

(** The metadata fallback of lines 520-568. *)
Definition isPaidActor (d : ApifyActorDetail) : bool :=
  match pricingInfos d with
  | Some (_ :: _) => true
  | _ => false
  end.

Definition hasTrialMinutes (d : ApifyActorDetail) : bool :=
  match pricingInfos d with
  | Some (p :: _) => negb (Qle_bool (trialMinutes p) 0)
  | _ => false
  end.

Definition trial_hours (rt : Runtime) (d : ApifyActorDetail) : string :=
  match pricingInfos d with
  | Some (p :: _) => Number_toString rt (Math_round (trialMinutes p / 60))
  | _ => ""
  end.

Definition price (rt : Runtime) (d : ApifyActorDetail) : string :=
  match pricingInfos d with
  | Some (p :: _) => Number_toString rt (pricePerUnitUsd p)
  | _ => ""
  end.

Definition jobs_fields (d : ApifyActorDetail) : list (string * JValue) :=
  match categories d with
  | Some cs =>
      if bool_decide ("JOBS" ∈ cs) then
        [("keywords", JObj [("title", JStr "Keywords");
                            ("type", JStr "array");
                            ("description", JStr "Job search keywords");
                            ("items", JObj [("type", JStr "string")])]);
         ("location", JObj [("title", JStr "Location");
                            ("type", JStr "string");
                            ("description", JStr "Job location or region")])]
      else []
  | None => []
  end.

Definition fallback_schema (rt : Runtime) (d : ApifyActorDetail)
    : ApifyInputSchema :=
  let input_description :=
    "Input data for " +:+ or_else (title (actor d)) "this actor" +:+ ". "
    +:+ (if isPaidActor d then
           "This is a paid actor"
           +:+ (if hasTrialMinutes d then
                  " with " +:+ trial_hours rt d +:+ " hours of trial time"
                else "")
           +:+ "."
         else "") in
  let properties :=
    jobs_fields d ++
    [("input", JObj [("title", JStr "Input Data");
                     ("type", JStr "string");
                     ("format", JStr "textarea");
                     ("description", JStr input_description)])] in
  {| s_title := or_else (title (actor d)) "Actor Input";
     s_type := "object";
     s_description :=
       Some (or_else_opt (description (actor d))
                         "Input parameters for this actor");
     s_properties :=
       (if isPaidActor d then
          obj_set "_pricing_info"
            (JObj [("title", JStr "Pricing Information");
                   ("type", JStr "string");
                   ("description",
                    JStr ("This actor costs $" +:+ price rt d +:+ "/month"
                          +:+ (if hasTrialMinutes d then
                                 " with " +:+ trial_hours rt d
                                 +:+ " hours free trial"
                               else "")));
                   ("readOnly", JBool true)])
            properties
        else properties);
     s_required := Some [] |}.

(** Bodies of the untyped responses, as far as the handler reads them:
    [versionsData.data?.items], [buildData.data?.inputSchema] and
    [buildsData.data?.items]. *)
Record BuildInfo := { build_inputSchema : option ApifyInputSchema }.
Record VersionsData := { versions_items : option (list ApifyActorVersion) }.
Record BuildData := { build_data : option BuildInfo }.
Record BuildsData := { builds_items : option (list BuildInfo) }.

Record SchemaEnv := {
  detail_answer : Fetched ApifyActorDetail;
  versions_answer : Fetched VersionsData;
  build_answer : string -> Fetched BuildData;
  builds_answer : Fetched BuildsData
}.

Abbreviation Schema := ApifyInputSchema.

(** [!schema] *)
Definition unset (schema : option Schema) : bool :=
  match schema with None => true | Some _ => false end.

Section Resolver.
Variable rt : Runtime.
Variable env : SchemaEnv.
Variable key : string.
Variable actorId : string.
Variable d : ApifyActorDetail.

(** Lines 262-270. *)
Definition from_embedded_version (schema : option Schema)
    : M (option Schema) :=
  match versions d with
  | Some (latestVersion :: _) =>
      match inputSchema latestVersion with
      | Some s => ret (Some s)
      | None => ret schema
      end
  | _ => ret schema
  end.

(** Lines 273-295. *)
Definition from_versions_endpoint (schema : option Schema)
    : M (option Schema) :=
  if unset schema then
    try_catch
      (versionsResponse <-
         fetch (get key ("/acts/" +:+ actorId
                         +:+ "/versions?limit=1&desc=true"))
               (versions_answer env) ;;
       if ok versionsResponse then
         versionsData <- read_json versionsResponse ;;
         match versions_items versionsData with
         | Some (latestVersion :: _) => ret (inputSchema latestVersion)
         | _ => ret schema
         end
       else ret schema)
      (fun _ => ret schema)
  else ret schema.

(** Lines 298-319. *)
Definition from_tagged_build (schema : option Schema)
    : M (option Schema) :=
  match taggedBuilds d with
  | Some (Some latestBuild) =>
      if unset schema then
        try_catch
          (buildResponse <-
             fetch (get key ("/acts/" +:+ actorId +:+ "/builds/"
                             +:+ buildId latestBuild))
                   (build_answer env (buildId latestBuild)) ;;
           if ok buildResponse then
             buildData <- read_json buildResponse ;;
             ret (b ← build_data buildData; build_inputSchema b)
           else ret schema)
          (fun _ => ret schema)
      else ret schema
  | _ => ret schema
  end.

(** Lines 322-346. *)
Definition from_builds_endpoint (schema : option Schema)
    : M (option Schema) :=
  if unset schema then
    try_catch
      (buildsResponse <-
         fetch (get key ("/acts/" +:+ actorId
                         +:+ "/builds?limit=1&desc=true"))
               (builds_answer env) ;;
       if ok buildsResponse then
         buildsData <- read_json buildsResponse ;;
         match builds_items buildsData with
         | Some (latestBuild :: _) => ret (build_inputSchema latestBuild)
         | _ => ret schema
         end
       else ret schema)
      (fun _ => ret schema)
  else ret schema.

(** Lines 349-398. *)
Definition from_example (schema : option Schema) : M (option Schema) :=
  match exampleRunInput d with
  | Some body =>
      if unset schema then ret (synthesize_from_example rt d body schema)
      else ret schema
  | None => ret schema
  end.

(** Lines 401-517. *)
Definition from_predefined (schema : option Schema) : M (option Schema) :=
  if unset schema && bool_decide (actorId = "nwua9Gu5YrADL7ZDj")
  then ret (Some predefined_schema)
  else ret schema.

(** Lines 520-568. *)
Definition from_metadata (schema : option Schema) : M (option Schema) :=
  if unset schema then ret (Some (fallback_schema rt d)) else ret schema.

(** Lines 259-576: the steps applied one after the other to the
    variable [schema], and the reply. *)
Definition resolve : M (Reply GetActorSchemaResponse) :=
  let schema := None in
  schema <- from_embedded_version schema ;;
  schema <- from_versions_endpoint schema ;;
  schema <- from_tagged_build schema ;;
  schema <- from_builds_endpoint schema ;;
  schema <- from_example schema ;;
  schema <- from_predefined schema ;;
  schema <- from_metadata schema ;;
  send 200 {| schema := schema; gs_error := None |}.
End Resolver.

Definition getActorSchema (rt : Runtime) (env : SchemaEnv)
    (actorId : string) (header : option string)
    : M (Reply GetActorSchemaResponse) :=
  let apiKey := bearer_token header in
  if negb (present apiKey) then
    send 401 {| schema := None; gs_error := Some "API key is required" |}
  else if negb (truthy_string actorId) then
    send 400 {| schema := None; gs_error := Some "Actor ID is required" |}
  else
    let key := default "" apiKey in
    try_catch
      (actorResponse <- fetch (get key ("/acts/" +:+ actorId))
                              (detail_answer env) ;;
       if negb (ok actorResponse) then
         read_text actorResponse ;;;
         send (status actorResponse)
           {| schema := None;
              gs_error := Some ("Failed to fetch actor details: "
                                +:+ pretty (status actorResponse) +:+ " "
                                +:+ statusText actorResponse) |}
       else
         actorData <- read_json actorResponse ;;
         resolve rt env key actorId actorData)
      (fun _ =>
         send 500 {| schema := None;
                     gs_error :=
                       Some "Failed to fetch actor schema from Apify" |}).

(** ** RunExecutor: [executeActor] *)

(** The environment of one invocation.  [poll_answer k] settles the
    [k]-th status poll (counted from 0).  While the handler is suspended
    time passes: the timer of the [k]-th sleep fires [timer_lateness k]
    milliseconds after the requested delay at the earliest, and the
    [k]-th poll takes [poll_latency k] milliseconds. *)
Record ExecutorEnv := {
  submit_answer : Fetched ApifyRun;
  poll_answer : nat -> Fetched ApifyRun;
  dataset_answer : Fetched (list ApifyDatasetItem);
  timer_lateness : nat -> N;
  poll_latency : nat -> N
}.

Definition maxWaitTime : Z := 60000.
Definition pollInterval : Z := 2000.

(** [await new Promise((resolve) => setTimeout(resolve, ms))] *)
Definition sleep (late : N) (ms : Z) : M unit := elapse (ms + Z.of_N late).

Definition post (key : string) (path : string) (body : JValue) : Request :=
  {| method := POST; url := APIFY_API_BASE +:+ path;
     authorization := "Bearer " +:+ key; content := Some body |}.

Definition run_url (actorId : string) (run : ApifyRun) : string :=
  "/acts/" +:+ actorId +:+ "/runs/" +:+ run_id run.

Definition dataset_url (actorId : string) (run : ApifyRun) : string :=
  "/acts/" +:+ actorId +:+ "/runs/" +:+ run_id run
  +:+ "/dataset/items?clean=true&format=json".

Section Executor.
Variable env : ExecutorEnv.
Variable key : string.
Variable actorId : string.
Variable run : ApifyRun.
Variable startTime : Z.

(** The [while] loop of lines 639-659; [k] counts the polls done so
    far, [finalRun] is the variable of that name. *)
Fixpoint poll_loop (fuel : nat) (k : nat) (finalRun : ApifyRun)
    : M ApifyRun :=
  if decide (run_status finalRun = RUNNING) then
    now <- Date_now ;;
    if (now - startTime <? maxWaitTime)%Z then
      match fuel with
      | O => fun w => (OutOfFuel, w)
      | S fuel' =>
          sleep (timer_lateness env k) pollInterval ;;;
          statusResponse <- fetch (get key (run_url actorId run))
                                  (poll_answer env k) ;;
          elapse (Z.of_N (poll_latency env k)) ;;;
          finalRun' <-
            (if ok statusResponse then read_json statusResponse
             else ret finalRun) ;;
          poll_loop fuel' (S k) finalRun'
      end
    else ret finalRun
  else ret finalRun.

(** Lines 662-680: the variable [results] after the block. *)
Definition fetch_results (finalRun : ApifyRun)
    : M (list ApifyDatasetItem) :=
  let results := [] in
  if decide (run_status finalRun = SUCCEEDED) then
    try_catch
      (resultsResponse <- fetch (get key (dataset_url actorId run))
                                (dataset_answer env) ;;
       if ok resultsResponse then read_json resultsResponse
       else ret results)
      (fun _ => ret results)
  else ret results.
End Executor.

(** [results.length > 0 ? results : undefined] *)
Definition results_field (results : list ApifyDatasetItem)
    : option (list ApifyDatasetItem) :=
  if (0 <? Z.of_nat (length results))%Z then Some results else None.

(** The sleeps of one invocation are at least [pollInterval] apart, so
    the loop body runs at most this many times. *)
Definition max_polls : nat := Z.to_nat (maxWaitTime / pollInterval).

(** In the replies, [run := None] stands for the empty object of
    [run: {} as any]. *)
Definition executeActor (env : ExecutorEnv) (actorId : string)
    (input : option JValue) (header : option string)
    : M (Reply ExecuteActorResponse) :=
  let apiKey := bearer_token header in
  if negb (present apiKey) then
    send 401 {| run := None; results := None;
                ex_error := Some "API key is required" |}
  else if negb (truthy_string actorId) then
    send 400 {| run := None; results := None;
                ex_error := Some "Actor ID is required" |}
  else
    let key := default "" apiKey in
    try_catch
      (runResponse <-
         fetch (post key ("/acts/" +:+ actorId +:+ "/runs")
                     (match input with
                      | Some v => if truthy v then v else JObj []
                      | None => JObj []
                      end))
               (submit_answer env) ;;
       if negb (ok runResponse) then
         send (status runResponse)
           {| run := None; results := None;
              ex_error := Some ("Failed to start actor run: "
                                +:+ pretty (status runResponse) +:+ " "
                                +:+ statusText runResponse) |}
       else
         run <- read_json runResponse ;;
         startTime <- Date_now ;;
         finalRun <- poll_loop env key actorId run startTime
                               max_polls 0 run ;;
         results <- fetch_results env key actorId run finalRun ;;
         send 200 {| run := Some finalRun;
                     results := results_field results;
                     ex_error := None |})
      (fun _ =>
         send 500 {| run := None; results := None;
                     ex_error := Some "Failed to execute actor" |}).

(** ** Specification-level notions *)

Ltac unfold_monad :=
  unfold fetch, start_fetch, await, read_json, read_text, send, Date_now,
    elapse, sleep, try_catch, bind, ret, throw in *.

(** A listing query fails when its fetch rejects or answers with a
    non-success status. *)
Definition listing_failed {T} (f : Fetched T) : bool :=
  match f with
  | Rejected => true
  | Responded r => negb (ok r)
  end.

(** A curated lookup fails when its fetch rejects, answers with a
    non-success status, or its body cannot be read. *)
Definition lookup_failed (f : Fetched ApifyActorDetail) : bool :=
  match f with
  | Rejected => true
  | Responded r => negb (ok r) || negb (bool_decide (is_Some (json r)))
  end.

(** The items a listing contributes. *)
Definition listed (f : Fetched (list ApifyActor)) : list ApifyActor :=
  match f with
  | Rejected => []
  | Responded r => if ok r then default [] (json r) else []
  end.

(** The union the specification describes: the owned items, then the
    accessible items whose id is not among them. *)
Definition listing_union (env : CatalogEnv) : list ApifyActor :=
  listed (owned_listing env)
  ++ filter (fun a => id a ∉ (id <$> listed (owned_listing env)))
            (listed (accessible_listing env)).

(** What the curated loop does to the list [acc] from the world [w]:
    it ends normally with [acc ++ extra] in [w']. *)
Definition curated_outcome (env : CatalogEnv) (key : string)
    (ids : list string) (acc : list ApifyActor) (w : World)
    (extra : list ApifyActor) (w' : World) : Prop :=
  add_populars env key ids acc w = (Ret (acc ++ extra), w')
  ∧ clock w' = clock w
  ∧ (∃ reqs, log w' = log w ++ reqs
             ∧ ∀ c, get key ("/acts/" +:+ c) ∈ reqs →
                    c ∈ ids ∧ c ∉ (id <$> acc))
  ∧ ((∀ c, c ∈ ids → lookup_failed (actor_detail env c) = true) →
     extra = [])
  ∧ ((∀ c r d, c ∈ ids → actor_detail env c = Responded r →
               ok r = true → json r = Some d → id (actor d) = c) →
     NoDup (id <$> acc) → NoDup (id <$> (acc ++ extra))).

(** The world once both listing requests are out, and the two shapes
    of reply. *)
Definition listings_requested (key : string) (t0 : Z) : World :=
  {| clock := t0;
     log := [get key "/acts?my=true&limit=100"; get key "/acts?limit=100"] |}.

Definition failure_reply (c : Z) (msg : string) : Reply ListActorsResponse :=
  {| code := c; payload := {| actors := []; la_error := Some msg |} |}.

Definition success_reply (l : list ApifyActor) : Reply ListActorsResponse :=
  {| code := 200; payload := {| actors := l; la_error := None |} |}.

(** [obj[key]] *)
Fixpoint obj_get (key : string) (entries : list (string * JValue))
    : option JValue :=
  match entries with
  | [] => None
  | (k, v) :: rest => if decide (k = key) then Some v else obj_get key rest
  end.

(** The [type] and [format] of a generated property. *)
Definition property_type (p : JValue) : option JValue :=
  match p with JObj entries => obj_get "type" entries | _ => None end.

Definition property_format (p : JValue) : option JValue :=
  match p with JObj entries => obj_get "format" entries | _ => None end.



(** The run the executor holds after [n] polls that did not throw: a
    poll with a successful, readable answer replaces it, any other poll
    leaves it as it was. *)
Fixpoint observed (env : ExecutorEnv) (run0 : ApifyRun) (n : nat)
    : ApifyRun :=
  match n with
  | O => run0
  | S m =>
      match poll_answer env m with
      | Responded r =>
          if ok r then default (observed env run0 m) (json r)
          else observed env run0 m
      | Rejected => observed env run0 m
      end
  end.

(** A poll that throws: its fetch rejects, or its successful answer
    cannot be read. *)
Definition poll_throws (f : Fetched ApifyRun) : bool :=
  match f with
  | Rejected => true
  | Responded r => ok r && negb (bool_decide (is_Some (json r)))
  end.

(** The requests of one invocation. *)
Definition submit_request (key actorId : string) (input : option JValue)
    : Request :=
  post key ("/acts/" +:+ actorId +:+ "/runs")
       (match input with
        | Some v => if truthy v then v else JObj []
        | None => JObj []
        end).

Definition poll_request (key actorId : string) (run0 : ApifyRun) : Request :=
  get key (run_url actorId run0).

Definition dataset_request (key actorId : string) (run0 : ApifyRun)
    : Request :=
  get key (dataset_url actorId run0).

(** The world after the [k]-th sleep and poll. *)
Definition after_poll (env : ExecutorEnv) (rq : Request) (k : nat)
    (w : World) : World :=
  {| clock := clock w + (pollInterval + Z.of_N (timer_lateness env k))
              + Z.of_N (poll_latency env k);
     log := log w ++ [rq] |}.

(** The time between the start of the loop and its [k]-th test, none
    of the polls before it having thrown. *)
Fixpoint elapsed_before (env : ExecutorEnv) (k : nat) : Z :=
  match k with
  | O => 0
  | S j =>
      elapsed_before env j
      + (pollInterval + Z.of_N (timer_lateness env j))
      + Z.of_N (poll_latency env j)
  end.

(** The items the dataset fetch leaves in [results]. *)
Definition fetched_items (env : ExecutorEnv) (finalRun : ApifyRun)
    : list ApifyDatasetItem :=
  if decide (run_status finalRun = SUCCEEDED) then
    match dataset_answer env with
    | Responded r => if ok r then default [] (json r) else []
    | Rejected => []
    end
  else [].

Definition executed (finalRun : ApifyRun)
    (items : list ApifyDatasetItem) : Reply ExecuteActorResponse :=
  {| code := 200;
     payload := {| run := Some finalRun; results := results_field items;
                   ex_error := None |} |}.

Definition not_executed (c : Z) (msg : string)
    : Reply ExecuteActorResponse :=
  {| code := c;
     payload := {| run := None; results := None; ex_error := Some msg |} |}.

(** ** Sample data *)

Definition sample_actor (i : string) : ApifyActor :=
  {| id := i; name := i; title := i; description := None;
     isPublic := true; username := "apify";
     createdAt := "2024-01-01T00:00:00.000Z";
     modifiedAt := "2024-01-01T00:00:00.000Z"; totalRuns := 0 |}.

Definition sample_detail (i : string) : ApifyActorDetail :=
  {| actor := sample_actor i; versions := Some []; taggedBuilds := None;
     exampleRunInput := None; pricingInfos := None; categories := None |}.

(** A [200 OK] answer with a readable body, and an answer with a
    non-success status. *)
Definition ok_response {T} (body : T) : Response T :=
  {| status := 200; statusText := "OK"; json := Some body;
     text_readable := true |}.

Definition error_response {T} (c : Z) (text : string) : Response T :=
  {| status := c; statusText := text; json := None;
     text_readable := true |}.

Definition answered {T} (body : T) : Fetched T :=
  Responded (ok_response body).

Definition refused {T} (c : Z) (text : string) : Fetched T :=
  Responded (error_response c text).

Definition bearer : option string := Some "Bearer apify_api_key".

(** owned = {A, B}, accessible = {B, C}; no curated actor can be
    looked up. *)
Definition env_AB_BC : CatalogEnv :=
  {| owned_listing := answered [sample_actor "A"; sample_actor "B"];
     accessible_listing := answered [sample_actor "B"; sample_actor "C"];
     actor_detail := fun _ => refused 404 "Not Found" |}.

(** The same listings; the curated actor [apify/web-scraper] can be
    looked up and carries the id it was asked for. *)
Definition env_AB_BC_curated : CatalogEnv :=
  {| owned_listing := answered [sample_actor "A"; sample_actor "B"];
     accessible_listing := answered [sample_actor "B"; sample_actor "C"];
     actor_detail := fun c =>
       if decide (c = "apify/web-scraper")
       then answered (sample_detail "apify/web-scraper")
       else refused 404 "Not Found" |}.

(** The owned listing names the actor A twice. *)
Definition env_owned_repeats : CatalogEnv :=
  {| owned_listing := answered [sample_actor "A"; sample_actor "A"];
     accessible_listing := answered [];
     actor_detail := fun _ => refused 404 "Not Found" |}.

(** The accessible listing names the actor B twice. *)
Definition env_accessible_repeats : CatalogEnv :=
  {| owned_listing := answered [sample_actor "A"];
     accessible_listing := answered [sample_actor "B"; sample_actor "B"];
     actor_detail := fun _ => refused 404 "Not Found" |}.

(** The platform knows the curated actor [apify/web-scraper] under the
    id [moJRLRc85AitArpNN], and lists it among the accessible actors. *)
Definition env_curated_listed : CatalogEnv :=
  {| owned_listing := answered [];
     accessible_listing := answered [sample_actor "moJRLRc85AitArpNN"];
     actor_detail := fun c =>
       if decide (c = "apify/web-scraper")
       then answered (sample_detail "moJRLRc85AitArpNN")
       else refused 404 "Not Found" |}.

(** The owned listing cannot be reached; the accessible one answers. *)
Definition env_owned_rejected : CatalogEnv :=
  {| owned_listing := Rejected;
     accessible_listing := answered [sample_actor "B"];
     actor_detail := fun _ => refused 404 "Not Found" |}.

(** A runtime for the samples: [JSON.parse] knows the three bodies
    below, [toUpperCase] knows the ASCII letters, and numbers without a
    fractional part are printed in decimal. *)
Definition dq : string := String (Ascii.ascii_of_nat 34) EmptyString.

Definition sample_body : string :=
  "{" +:+ dq +:+ "query" +:+ dq +:+ ":" +:+ dq +:+ "foo" +:+ dq +:+ ","
  +:+ dq +:+ "limit" +:+ dq +:+ ":5,"
  +:+ dq +:+ "flag" +:+ dq +:+ ":true}".

Definition sample_payload : JValue :=
  JObj [("query", JStr "foo"); ("limit", JNum 5%Q); ("flag", JBool true)].

Definition upper_ascii (c : Ascii.ascii) : Ascii.ascii :=
  let n := Ascii.nat_of_ascii c in
  if (97 <=? n)%nat && (n <=? 122)%nat then Ascii.ascii_of_nat (n - 32)
  else c.

Fixpoint upper_string (s : string) : string :=
  match s with
  | EmptyString => EmptyString
  | String c rest => String (upper_ascii c) (upper_string rest)
  end.

Definition sample_runtime : Runtime :=
  {| JSON_parse := fun s =>
       if decide (s = sample_body) then Some sample_payload
       else if decide (s = "null") then Some JNull
       else if decide (s = "{}") then Some (JObj [])
       else None;
     toUpperCase := upper_string;
     Number_toString := fun q => pretty (Qfloor q) |}.

Definition sample_schema : ApifyInputSchema :=
  {| s_title := "Search";
     s_type := "object";
     s_description := None;
     s_properties := [("term", JObj [("type", JStr "string")])];
     s_required := Some ["term"] |}.

(** The actor of the predefined schema, whose latest version embeds
    [sample_schema]. *)
Definition detail_with_version : ApifyActorDetail :=
  {| actor := sample_actor "nwua9Gu5YrADL7ZDj";
     versions := Some [{| versionNumber := "0.3"; buildTag := "latest";
                          inputSchema := Some sample_schema |};
                       {| versionNumber := "0.2"; buildTag := "beta";
                          inputSchema := None |}];
     taggedBuilds := None; exampleRunInput := None;
     pricingInfos := None; categories := None |}.

Definition env_with_version : SchemaEnv :=
  {| detail_answer := answered detail_with_version;
     versions_answer := Rejected;
     build_answer := fun _ => Rejected;
     builds_answer := Rejected |}.

Definition sample_run (st : RunStatus) : ApifyRun :=
  {| run_id := "HG7ML7M8z78YcAPEB"; actId := "moJRLRc85AitArpNN";
     userId := "wRsJZtadYvn4mBZmm";
     startedAt := "2024-01-01T00:00:00.000Z"; finishedAt := None;
     run_status := st;
     run_stats := {| inputBytes := Some 2%Q; outputBytes := None;
                     runTimeSecs := None |};
     options := {| build := "latest"; timeoutSecs := 300;
                   memoryMbytes := 1024 |};
     meta := {| origin := "API"; clientIp := "203.0.113.7";
                userAgent := "node" |} |}.

Definition sample_items : list ApifyDatasetItem :=
  [[("url", JStr "https://example.com"); ("title", JStr "Example Domain")]].

(** The run is created READY; the platform would report it RUNNING at
    the first poll and SUCCEEDED from the second poll on, with a
    dataset of one item. *)
Definition env_ready_start : ExecutorEnv :=
  {| submit_answer := answered (sample_run READY);
     poll_answer := fun k =>
       match k with
       | O => answered (sample_run RUNNING)
       | S _ => answered (sample_run SUCCEEDED)
       end;
     dataset_answer := answered sample_items;
     timer_lateness := fun _ => 3%N;
     poll_latency := fun _ => 150%N |}.

(** The same platform, the run being created RUNNING. *)
Definition env_running_start : ExecutorEnv :=
  {| submit_answer := answered (sample_run RUNNING);
     poll_answer := fun k =>
       match k with
       | O => answered (sample_run RUNNING)
       | S _ => answered (sample_run SUCCEEDED)
       end;
     dataset_answer := answered sample_items;
     timer_lateness := fun _ => 3%N;
     poll_latency := fun _ => 150%N |}.

(** The run stays RUNNING for ever. *)
Definition env_stuck : ExecutorEnv :=
  {| submit_answer := answered (sample_run RUNNING);
     poll_answer := fun _ => answered (sample_run RUNNING);
     dataset_answer := answered sample_items;
     timer_lateness := fun _ => 0%N;
     poll_latency := fun _ => 0%N |}.

(** The run stays RUNNING while the ceiling elapses, during the sleep
    before the twenty-eighth poll; the fetch of that poll rejects. *)
Definition env_rejected_after_ceiling : ExecutorEnv :=
  {| submit_answer := answered (sample_run RUNNING);
     poll_answer := fun k =>
       if (k <? 27)%nat then answered (sample_run RUNNING) else Rejected;
     dataset_answer := answered sample_items;
     timer_lateness := fun _ => 3%N;
     poll_latency := fun _ => 150%N |}.

(** The first poll is answered [502 Bad Gateway]. *)
Definition env_poll_refused : ExecutorEnv :=
  {| submit_answer := answered (sample_run RUNNING);
     poll_answer := fun k =>
       match k with
       | O => refused 502 "Bad Gateway"
       | S _ => answered (sample_run SUCCEEDED)
       end;
     dataset_answer := answered sample_items;
     timer_lateness := fun _ => 3%N;
     poll_latency := fun _ => 150%N |}.

(** The fetch of the first poll rejects. *)
Definition env_poll_rejected : ExecutorEnv :=
  {| submit_answer := answered (sample_run RUNNING);
     poll_answer := fun k =>
       match k with
       | O => Rejected
       | S _ => answered (sample_run SUCCEEDED)
       end;
     dataset_answer := answered sample_items;
     timer_lateness := fun _ => 3%N;
     poll_latency := fun _ => 150%N |}.

(** The run is created SUCCEEDED and its dataset is empty. *)
Definition env_empty_dataset : ExecutorEnv :=
  {| submit_answer := answered (sample_run SUCCEEDED);
     poll_answer := fun _ => answered (sample_run SUCCEEDED);
     dataset_answer := answered [];
     timer_lateness := fun _ => 0%N;
     poll_latency := fun _ => 0%N |}.

(** ** The remaining handlers of [server/routes/apify.ts] *)

Record ValidateApiKeyResponse := {
  valid : bool;
  va_error : option string
}.

(** [validateApiKey] (lines 16-52).  The key comes from the request
    body, not from a header; the body of the platform's answer is never
    read. *)
Definition validateApiKey {T} (answer : Fetched T) (apiKey : option string)
    : M (Reply ValidateApiKeyResponse) :=
  if negb (present apiKey) then
    send 400 {| valid := false; va_error := Some "API key is required" |}
  else
    let key := default "" apiKey in
    try_catch
      (response <- fetch (get key "/acts") answer ;;
       if ok response then
         send 200 {| valid := true; va_error := None |}
       else
         send 401 {| valid := false; va_error := Some "Invalid API key" |})
      (fun _ =>
         send 500 {| valid := false;
                     va_error := Some "Failed to validate API key" |}).

(** [listPublicActors] (lines 150-210). *)
Definition popularActorIds : list string :=
  ["apify/web-scraper"; "apify/google-search-results-scraper";
   "apify/instagram-scraper"; "apify/youtube-scraper";
   "apify/facebook-posts-scraper"; "apify/amazon-product-scraper"].

(** [popularActorIds.map(async (actorId) => ...)]: every callback runs
    up to its first [await], so the six requests are issued, in order,
    before any answer is looked at. *)
Fixpoint start_lookups (lookup : string -> Fetched ApifyActorDetail)
    (key : string) (ids : list string)
    : M (list (Fetched ApifyActorDetail)) :=
  match ids with
  | [] => ret []
  | actorId :: rest =>
      p <- start_fetch (get key ("/acts/" +:+ actorId)) (lookup actorId) ;;
      ps <- start_lookups lookup key rest ;;
      ret (p :: ps)
  end.

(** The rest of one callback: the actor, or [null]. *)
Definition finish_lookup (p : Fetched ApifyActorDetail)
    : M (option ApifyActor) :=
  try_catch
    (response <- await p ;;
     if ok response then
       data <- read_json response ;;
       ret (Some (actor data))
     else ret None)
    (fun _ => ret None).

(** [await Promise.all(actorPromises)] *)
Fixpoint finish_lookups (ps : list (Fetched ApifyActorDetail))
    : M (list (option ApifyActor)) :=
  match ps with
  | [] => ret []
  | p :: rest =>
      a <- finish_lookup p ;;
      others <- finish_lookups rest ;;
      ret (a :: others)
  end.

Definition listPublicActors (lookup : string -> Fetched ApifyActorDetail)
    (header : option string) : M (Reply ListActorsResponse) :=
  let apiKey := bearer_token header in
  if negb (present apiKey) then
    send 401 {| actors := []; la_error := Some "API key is required" |}
  else
    let key := default "" apiKey in
    try_catch
      (actorPromises <- start_lookups lookup key popularActorIds ;;
       actors <- finish_lookups actorPromises ;;
       let validActors := omap (fun a => a) actors in
       send 200 {| actors := validActors; la_error := None |})
      (fun _ =>
         send 500 {| actors := [];
                     la_error :=
                       Some "Failed to fetch public actors from Apify" |}).

(** ** Specification-level notions for the further properties *)

(** The actor a lookup yields: the data of a successful, readable
    answer. *)
Definition looked_up (f : Fetched ApifyActorDetail) : option ApifyActor :=
  match f with
  | Rejected => None
  | Responded r => if ok r then actor <$> json r else None
  end.

Definition lookup_request (key actorId : string) : Request :=
  get key ("/acts/" +:+ actorId).

(** Every request of the log carries the credential [key]. *)
Definition all_authorized (key : string) (w : World) : Prop :=
  ∀ rq, rq ∈ log w → authorization rq = "Bearer " +:+ key.

(** A platform on which only the first two public actors can be looked
    up. *)
Definition public_lookup_sample (actorId : string)
    : Fetched ApifyActorDetail :=
  if decide (actorId = "apify/web-scraper")
  then answered (sample_detail "moJRLRc85AitArpNN")
  else if decide (actorId = "apify/google-search-results-scraper")
  then answered (sample_detail "nFJndFXA5zjCTuudP")
  else if decide (actorId = "apify/instagram-scraper")
  then Rejected
  else refused 404 "Not Found".

(** The world [w] once the requests [rs] have been issued. *)
Definition requested (rs : list Request) (w : World) : World :=
  {| clock := clock w; log := log w ++ rs |}.

(** What each source of [getActorSchema] has to offer. *)
Definition embedded_schema (d : ApifyActorDetail) : option Schema :=
  match versions d with
  | Some (latestVersion :: _) => inputSchema latestVersion
  | _ => None
  end.

Definition versions_schema (env : SchemaEnv) : option Schema :=
  match versions_answer env with
  | Responded r =>
      if ok r then
        match json r with
        | Some versionsData =>
            match versions_items versionsData with
            | Some (latestVersion :: _) => inputSchema latestVersion
            | _ => None
            end
        | None => None
        end
      else None
  | Rejected => None
  end.

Definition build_schema (env : SchemaEnv) (d : ApifyActorDetail)
    : option Schema :=
  match taggedBuilds d with
  | Some (Some latestBuild) =>
      match build_answer env (buildId latestBuild) with
      | Responded r =>
          if ok r then
            match json r with
            | Some buildData => b ← build_data buildData; build_inputSchema b
            | None => None
            end
          else None
      | Rejected => None
      end
  | _ => None
  end.

Definition builds_schema (env : SchemaEnv) : option Schema :=
  match builds_answer env with
  | Responded r =>
      if ok r then
        match json r with
        | Some buildsData =>
            match builds_items buildsData with
            | Some (latestBuild :: _) => build_inputSchema latestBuild
            | _ => None
            end
        | None => None
        end
      else None
  | Rejected => None
  end.

Definition example_schema (rt : Runtime) (d : ApifyActorDetail)
    : option Schema :=
  match exampleRunInput d with
  | Some body => synthesize_from_example rt d body None
  | None => None
  end.

Definition predefined_for (actorId : string) : option Schema :=
  if bool_decide (actorId = "nwua9Gu5YrADL7ZDj")
  then Some predefined_schema else None.

(** The requests of the probes. *)
Definition versions_request (key actorId : string) : Request :=
  get key ("/acts/" +:+ actorId +:+ "/versions?limit=1&desc=true").

Definition build_request (key actorId : string) (b : TaggedBuild) : Request :=
  get key ("/acts/" +:+ actorId +:+ "/builds/" +:+ buildId b).

Definition builds_request (key actorId : string) : Request :=
  get key ("/acts/" +:+ actorId +:+ "/builds?limit=1&desc=true").

Definition tagged_build_requests (key actorId : string)
    (d : ApifyActorDetail) : list Request :=
  match taggedBuilds d with
  | Some (Some latestBuild) => [build_request key actorId latestBuild]
  | _ => []
  end.

(** The requests a call makes after the detail request: each probe
    asks the platform only while no earlier source had a schema. *)
Definition probe_requests (env : SchemaEnv) (key actorId : string)
    (d : ApifyActorDetail) : list Request :=
  match embedded_schema d with
  | Some _ => []
  | None =>
      versions_request key actorId
      :: match versions_schema env with
         | Some _ => []
         | None =>
             tagged_build_requests key actorId d
             ++ match build_schema env d with
                | Some _ => []
                | None => [builds_request key actorId]
                end
         end
  end.

(** The first of two offers. *)
Definition or_next {A} (a b : option A) : option A :=
  match a with
  | Some _ => a
  | None => b
  end.

(** The schema of a successful reply: the first one on offer. *)
Definition resolved (rt : Runtime) (env : SchemaEnv) (actorId : string)
    (d : ApifyActorDetail) : Schema :=
  default (fallback_schema rt d)
    (or_next (embedded_schema d)
       (or_next (versions_schema env)
          (or_next (build_schema env d)
             (or_next (builds_schema env)
                (or_next (example_schema rt d)
                   (predefined_for actorId)))))).

Definition schema_reply (s : Schema) : Reply GetActorSchemaResponse :=
  {| code := 200; payload := {| schema := Some s; gs_error := None |} |}.

Definition schema_failure (c : Z) (msg : string)
    : Reply GetActorSchemaResponse :=
  {| code := c; payload := {| schema := None; gs_error := Some msg |} |}.

(** No source before the predefined table has a schema, and all of them
    fail to answer. *)
Definition env_no_schema : SchemaEnv :=
  {| detail_answer := answered (sample_detail "nwua9Gu5YrADL7ZDj");
     versions_answer := refused 403 "Forbidden";
     build_answer := fun _ => Rejected;
     builds_answer := Rejected |}.

(** The actor records an example run input whose body is [null]. *)
Definition detail_null_example : ApifyActorDetail :=
  {| actor := sample_actor "nwua9Gu5YrADL7ZDj"; versions := Some [];
     taggedBuilds := None; exampleRunInput := Some "null";
     pricingInfos := None; categories := None |}.

Definition env_null_example : SchemaEnv :=
  {| detail_answer := answered detail_null_example;
     versions_answer := refused 403 "Forbidden";
     build_answer := fun _ => Rejected;
     builds_answer := Rejected |}.

(** The actor records the sample payload as its example run input. *)
Definition detail_sample_example : ApifyActorDetail :=
  {| actor := sample_actor "moJRLRc85AitArpNN"; versions := None;
     taggedBuilds := None; exampleRunInput := Some sample_body;
     pricingInfos := None; categories := None |}.

(** [categories?.includes('JOBS')] *)
Definition has_jobs (d : ApifyActorDetail) : bool :=
  match categories d with
  | Some cs => bool_decide ("JOBS" ∈ cs)
  | None => false
  end.

(** A paid actor of the JOBS category with a trial. *)
Definition detail_paid_jobs : ApifyActorDetail :=
  {| actor := sample_actor "hKByXkMQaC5Qt9UMN"; versions := None;
     taggedBuilds := None; exampleRunInput := None;
     pricingInfos := Some [{| pricePerUnitUsd := 30; trialMinutes := 4320 |}];
     categories := Some ["AUTOMATION"; "JOBS"] |}.

(** * Properties *)

(** ** CatalogMerger *)

Lemma additionalActors_filter (allActors items : list ApifyActor) :
  additionalActors allActors items
  = filter (fun a => id a ∉ (id <$> allActors)) items.
Proof.
  unfold additionalActors. apply list_filter_iff. intros a.
  rewrite elem_of_list_to_set. done.
Qed.

(** One turn of the curated loop never throws; it leaves the list alone
    or appends the actor of a successful lookup, and it issues a request
    exactly when the id is not yet present. *)
Lemma add_popular_spec env key c acc w :
  ∃ extra,
    add_popular env key c acc w
    = (Ret (acc ++ extra),
       {| clock := clock w;
          log := log w ++ (if decide (c ∈ id <$> acc) then []
                           else [get key ("/acts/" +:+ c)]) |})
    ∧ (extra = []
       ∨ (c ∉ (id <$> acc))
         ∧ ∃ r d, actor_detail env c = Responded r ∧ ok r = true
                  ∧ json r = Some d ∧ extra = [actor d])
    ∧ (lookup_failed (actor_detail env c) = true → extra = []).
Proof.
  unfold add_popular.
  destruct (decide (c ∈ (list_to_set (id <$> acc) : gset string))) as [Hin|Hin];
    rewrite elem_of_list_to_set in Hin.
  - exists []. rewrite decide_True by done. rewrite !app_nil_r.
    destruct w; auto.
  - rewrite decide_False by done. unfold_monad. cbn.
    destruct (actor_detail env c) as [|r] eqn:Hd; cbn.
    + exists []. rewrite app_nil_r. auto.
    + destruct (ok r) eqn:Hok; cbn.
      * destruct (json r) as [d|] eqn:Hj; cbn.
        -- exists [actor d]. split; [done|]. split.
           ++ right. split; [done|]. by exists r, d.
           ++ discriminate.
        -- exists []. rewrite app_nil_r. auto.
      * exists []. rewrite app_nil_r. auto.
Qed.

(** The curated loop never throws; it requests an id only if no actor
    of the list has it at that turn. *)
Lemma add_populars_spec env key ids : ∀ acc w,
  ∃ extra w', curated_outcome env key ids acc w extra w'.
Proof.
  unfold curated_outcome.
  induction ids as [|c ids IH]; intros acc w; cbn [add_populars].
  - exists [], w. rewrite app_nil_r. unfold ret.
    split; [done|]. split; [done|]. split.
    + exists []. rewrite app_nil_r. split; [done|]. intros c Hc.
      by apply elem_of_nil in Hc.
    + auto.
  - destruct (add_popular_spec env key c acc w) as (e1 & Hrun & Hshape & Hfail).
    unfold bind at 1. rewrite Hrun.
    destruct (IH (acc ++ e1)
                {| clock := clock w;
                   log := log w ++ (if decide (c ∈ id <$> acc) then []
                                    else [get key ("/acts/" +:+ c)]) |})
      as (e2 & w' & Hrest & Hclock & (reqs & Hlog & Hreqs) & Hallfail & Hnodup).
    exists (e1 ++ e2), w'. rewrite app_assoc.
    split; [done|]. split; [done|]. split; [|split].
    + cbn [log] in Hlog. rewrite <- app_assoc in Hlog.
      eexists. split; [exact Hlog|]. intros c' Hc'.
      apply elem_of_app in Hc' as [Hc'|Hc'].
      * destruct (decide (c ∈ id <$> acc)) as [|Hnin];
          [by apply elem_of_nil in Hc'|].
        apply list_elem_of_singleton in Hc'.
        assert (c' = c) as ->.
        { unfold get in Hc'. injection Hc' as Hu.
          by apply (inj (String.app _)) in Hu. }
        split; [apply list_elem_of_here | done].
      * destruct (Hreqs c' Hc') as [Hin Hnin]. split.
        -- by apply list_elem_of_further.
        -- intros Hx. apply Hnin. rewrite fmap_app. apply elem_of_app. by left.
    + intros Hall. rewrite Hfail, Hallfail; [done| |].
      * intros c' Hc'. apply Hall. by apply list_elem_of_further.
      * apply Hall. apply list_elem_of_here.
    + intros Hid Hnd. rewrite <- app_assoc. rewrite app_assoc. apply Hnodup.
      * intros c' r d' Hc'. apply Hid. by apply list_elem_of_further.
      * destruct Hshape as [->|(Hnin & r & d' & Hr & Hok & Hj & ->)].
        -- by rewrite app_nil_r.
        -- rewrite fmap_app. cbn. apply NoDup_app. split; [done|]. split.
           ++ intros x Hx Hx'. apply list_elem_of_singleton in Hx'. subst x.
              rewrite (Hid c r d' (list_elem_of_here _ _) Hr Hok Hj) in Hx. done.
           ++ apply NoDup_singleton.
Qed.

(** Without a credential nothing is requested. *)
Lemma listActors_no_key env header w :
  present (bearer_token header) = false →
  listActors env header w = (Ret (failure_reply 401 "API key is required"), w).
Proof. intros H. unfold listActors. by rewrite H. Qed.

(** A listing fetch that rejects ends the call in the outer [catch]. *)
Lemma listActors_rejected env header t0 :
  present (bearer_token header) = true →
  owned_listing env = Rejected ∨ accessible_listing env = Rejected →
  listActors env header (initial t0)
  = (Ret (failure_reply 500 "Failed to fetch actors from Apify"),
     listings_requested (default "" (bearer_token header)) t0).
Proof.
  intros Hk H. unfold listActors. rewrite Hk. unfold_monad. cbn.
  destruct (owned_listing env); [done|].
  destruct H as [H|H]; [done|]. by rewrite H.
Qed.

(** Both listings answered with a non-success status. *)
Lemma listActors_both_failed env header t0 r1 r2 :
  present (bearer_token header) = true →
  owned_listing env = Responded r1 →
  accessible_listing env = Responded r2 →
  ok r1 = false → ok r2 = false →
  listActors env header (initial t0)
  = (Ret (failure_reply (status r1)
            ("Failed to fetch actors: " +:+ pretty (status r1) +:+ " "
             +:+ statusText r1)),
     listings_requested (default "" (bearer_token header)) t0).
Proof.
  intros Hk H1 H2 Hok1 Hok2. unfold listActors. rewrite Hk.
  unfold_monad. cbn -[pretty]. rewrite H1, H2. cbn -[pretty].
  by rewrite Hok1, Hok2.
Qed.

(** A successful listing whose body cannot be read ends the call in the
    outer [catch]. *)
Lemma listActors_unreadable env header t0 r1 r2 :
  present (bearer_token header) = true →
  owned_listing env = Responded r1 →
  accessible_listing env = Responded r2 →
  (ok r1 = true ∧ json r1 = None) ∨ (ok r2 = true ∧ json r2 = None) →
  listActors env header (initial t0)
  = (Ret (failure_reply 500 "Failed to fetch actors from Apify"),
     listings_requested (default "" (bearer_token header)) t0).
Proof.
  intros Hk H1 H2 H. unfold listActors. rewrite Hk.
  unfold_monad. cbn -[pretty]. rewrite H1, H2. cbn -[pretty].
  destruct H as [[Hok Hj]|[Hok Hj]].
  - rewrite Hok, Hj. done.
  - rewrite Hok, Hj, andb_false_r.
    destruct (ok r1); [destruct (json r1)|]; done.
Qed.

(** At least one listing succeeded and the successful bodies are
    readable: the reply is the union followed by what the curated loop
    adds to it. *)
Lemma listActors_merged env header t0 r1 r2 :
  present (bearer_token header) = true →
  owned_listing env = Responded r1 →
  accessible_listing env = Responded r2 →
  ok r1 = true ∨ ok r2 = true →
  (ok r1 = true → is_Some (json r1)) →
  (ok r2 = true → is_Some (json r2)) →
  ∃ extra w',
    curated_outcome env (default "" (bearer_token header)) popularActors
      (listing_union env)
      (listings_requested (default "" (bearer_token header)) t0) extra w'
    ∧ listActors env header (initial t0)
      = (Ret (success_reply (listing_union env ++ extra)), w').
Proof.
  intros Hk H1 H2 Hany Hj1 Hj2.
  set (key := default "" (bearer_token header)).
  destruct (add_populars_spec env key popularActors (listing_union env)
              (listings_requested key t0)) as (extra & w' & Hspec).
  exists extra, w'. split; [done|].
  destruct Hspec as [Hrun _]. revert Hrun. unfold listActors, listing_union. rewrite Hk, H1, H2.
  fold key. cbn [listed negb].
  assert (negb (ok r1) && negb (ok r2) = false) as Hnot
    by (destruct Hany as [-> | ->]; [done | by rewrite andb_false_r]).
  unfold try_catch, bind at 1 2 3 4, start_fetch at 1 2, await, ret at 1 2.
  cbn [initial log clock app]. rewrite Hnot.
  fold (listings_requested key t0).
  destruct (ok r1) eqn:Hok1; destruct (ok r2) eqn:Hok2.
  - destruct (Hj1 eq_refl) as [o Ho]. destruct (Hj2 eq_refl) as [a Ha].
    unfold bind, read_json, ret, send. rewrite Ho, Ha. simpl default.
    rewrite additionalActors_filter. cbn [app]. by intros ->.
  - destruct (Hj1 eq_refl) as [o Ho].
    unfold bind, read_json, ret, send. rewrite Ho. simpl default.
    rewrite filter_nil, app_nil_r. cbn [app]. by intros ->.
  - destruct (Hj2 eq_refl) as [a Ha].
    unfold bind, read_json, ret, send. rewrite Ha. simpl default.
    rewrite additionalActors_filter. cbn [app]. by intros ->.
  - by destruct Hany.
Qed.

(** The union is free of repeated ids when the two listings are. *)
Lemma union_NoDup (o a : list ApifyActor) :
  NoDup (id <$> o) → NoDup (id <$> a) →
  NoDup (id <$> (o ++ filter (fun x => id x ∉ (id <$> o)) a)).
Proof.
  intros Ho Ha. rewrite fmap_app. apply NoDup_app. split; [done|]. split.
  - intros i Hi Hi'. apply list_elem_of_fmap in Hi' as (x & -> & Hx).
    apply list_elem_of_filter in Hx as [Hx _]. done.
  - eapply sublist_NoDup; [exact Ha|]. apply fmap_sublist, sublist_filter.
Qed.

Lemma listing_union_NoDup env :
  (∀ r items, owned_listing env = Responded r → json r = Some items →
              NoDup (id <$> items)) →
  (∀ r items, accessible_listing env = Responded r → json r = Some items →
              NoDup (id <$> items)) →
  NoDup (id <$> listing_union env).
Proof.
  intros Ho Ha. unfold listing_union. apply union_NoDup.
  - destruct (owned_listing env) as [|r]; cbn; [apply NoDup_nil_2|].
    destruct (ok r); [|apply NoDup_nil_2].
    destruct (json r) eqn:Hj; cbn; [by eapply Ho | apply NoDup_nil_2].
  - destruct (accessible_listing env) as [|r]; cbn; [apply NoDup_nil_2|].
    destruct (ok r); [|apply NoDup_nil_2].
    destruct (json r) eqn:Hj; cbn; [by eapply Ha | apply NoDup_nil_2].
Qed.

(** Every call ends with a reply: an error envelope sent before the
    curated loop starts, or the union followed by the curated
    additions. *)
Lemma listActors_cases env header t0 :
  let key := default "" (bearer_token header) in
  (∃ c msg w, listActors env header (initial t0)
              = (Ret (failure_reply c msg), w)
              ∧ (w = initial t0 ∨ w = listings_requested key t0))
  ∨ (∃ extra w',
       curated_outcome env key popularActors (listing_union env)
         (listings_requested key t0) extra w'
       ∧ listActors env header (initial t0)
         = (Ret (success_reply (listing_union env ++ extra)), w')).
Proof.
  intros key.
  assert (∀ c msg w,
            listActors env header (initial t0) = (Ret (failure_reply c msg), w) →
            w = initial t0 ∨ w = listings_requested key t0 →
            ∃ c msg w, listActors env header (initial t0)
                       = (Ret (failure_reply c msg), w)
                       ∧ (w = initial t0 ∨ w = listings_requested key t0))
    as Herr by (intros c msg w ? ?; by exists c, msg, w).
  destruct (present (bearer_token header)) eqn:Hk.
  2: { left. eapply Herr; [by apply listActors_no_key | by left]. }
  destruct (owned_listing env) as [|r1] eqn:H1.
  { left. eapply Herr; [apply listActors_rejected; auto | by right]. }
  destruct (accessible_listing env) as [|r2] eqn:H2.
  { left. eapply Herr; [apply listActors_rejected; auto | by right]. }
  destruct (ok r1) eqn:Hok1; [destruct (json r1) as [o|] eqn:Hj1|].
  - destruct (ok r2) eqn:Hok2; [destruct (json r2) as [a|] eqn:Hj2|].
    + right. eapply listActors_merged; eauto.
    + left. eapply Herr; [eapply listActors_unreadable; eauto | by right].
    + right. eapply listActors_merged; eauto. congruence.
  - left. eapply Herr; [eapply listActors_unreadable; eauto | by right].
  - destruct (ok r2) eqn:Hok2; [destruct (json r2) as [a|] eqn:Hj2|].
    + right. eapply listActors_merged; eauto. congruence.
    + left. eapply Herr; [eapply listActors_unreadable; eauto | by right].
    + left. eapply Herr; [eapply listActors_both_failed; eauto | by right].
Qed.

Lemma listing_request_not_lookup key path c :
  path = "/acts?my=true&limit=100" ∨ path = "/acts?limit=100" →
  get key ("/acts/" +:+ c) ≠ get key path.
Proof.
  intros Hp Heq. unfold get in Heq. injection Heq as Hu.
  apply (inj (String.app _)) in Hu. destruct Hp; subst path; discriminate.
Qed.

(** C1 (as amended).  When neither upstream listing repeats an id and
    every successful curated lookup returns the actor with the requested
    id, every call of [listActors] ends with a reply whose actors have
    pairwise distinct ids.  A curated id that some actor of the list
    already has is skipped: no request is issued for it and the list is
    left as it is. *)
Theorem listActors_distinct_ids env header t0 :
  (∀ r items, owned_listing env = Responded r → json r = Some items →
              NoDup (id <$> items)) →
  (∀ r items, accessible_listing env = Responded r → json r = Some items →
              NoDup (id <$> items)) →
  (∀ c r d, c ∈ popularActors → actor_detail env c = Responded r →
            ok r = true → json r = Some d → id (actor d) = c) →
  ∃ reply w,
    listActors env header (initial t0) = (Ret reply, w)
    ∧ NoDup (id <$> actors (payload reply))
    ∧ (∀ c, c ∈ (id <$> listing_union env) →
            get (default "" (bearer_token header)) ("/acts/" +:+ c) ∉ log w)
    ∧ (∀ key c acc w0, c ∈ (id <$> acc) →
                       add_popular env key c acc w0 = (Ret acc, w0)).
Proof.
  intros Ho Ha Hc.
  assert (∀ key c acc w0, c ∈ (id <$> acc) →
                          add_popular env key c acc w0 = (Ret acc, w0)) as Hskip.
  { intros key c acc w0 Hin. unfold add_popular.
    rewrite decide_True by (by apply elem_of_list_to_set). done. }
  destruct (listActors_cases env header t0)
    as [(c & msg & w & Hrun & Hw)|(extra & w' & Hcur & Hrun)].
  - exists (failure_reply c msg), w. split; [done|]. split; [apply NoDup_nil_2|].
    split; [|done]. intros c' _ Hin.
    destruct Hw as [-> | ->]; cbn in Hin.
    + by apply elem_of_nil in Hin.
    + apply elem_of_cons in Hin as [Hin|Hin].
      { by eapply listing_request_not_lookup; [left|]. }
      apply list_elem_of_singleton in Hin.
      by eapply listing_request_not_lookup; [right|].
  - destruct Hcur as (_ & _ & (reqs & Hlog & Hreqs) & _ & Hnd).
    exists (success_reply (listing_union env ++ extra)), w'.
    split; [done|]. split; [|split; [|done]].
    + cbn. apply Hnd; [done|]. by apply listing_union_NoDup.
    + intros c' Hpresent Hin. rewrite Hlog in Hin. cbn in Hin.
      apply elem_of_cons in Hin as [Hin|Hin].
      { by eapply listing_request_not_lookup; [left|]. }
      apply elem_of_cons in Hin as [Hin|Hin].
      { by eapply listing_request_not_lookup; [right|]. }
      by destruct (Hreqs c' Hin).
Qed.

(** The sample with owned = {A, B}, accessible = {B, C} and one curated
    actor that can be looked up meets the hypotheses. *)
Lemma listActors_distinct_ids_witness :
  ∃ reply w,
    listActors env_AB_BC_curated bearer (initial 0) = (Ret reply, w)
    ∧ NoDup (id <$> actors (payload reply))
    ∧ (∀ c, c ∈ (id <$> listing_union env_AB_BC_curated) →
            get (default "" (bearer_token bearer)) ("/acts/" +:+ c) ∉ log w)
    ∧ (∀ key c acc w0, c ∈ (id <$> acc) →
                       add_popular env_AB_BC_curated key c acc w0
                       = (Ret acc, w0)).
Proof.
  apply (listActors_distinct_ids env_AB_BC_curated bearer 0).
  - intros r items [= <-] [= <-]. compute_done.
  - intros r items [= <-] [= <-]. compute_done.
  - intros c r d _. cbn. destruct (decide (c = "apify/web-scraper")) as [->|].
    + intros [= <-] _ [= <-]. reflexivity.
    + intros [= <-] Hok. discriminate Hok.
Defined.

(** C1, as stated, fails.  Each reply below is a success envelope that
    names one id twice: the owned listing repeats A; the accessible
    listing repeats B; the actor fetched for the curated id
    [apify/web-scraper] has an id that is already in the list. *)
Lemma listActors_repeated_ids :
  (fst (listActors env_owned_repeats bearer (initial 0))
   = Ret (success_reply [sample_actor "A"; sample_actor "A"]))
  ∧ (fst (listActors env_accessible_repeats bearer (initial 0))
     = Ret (success_reply [sample_actor "A"; sample_actor "B";
                           sample_actor "B"]))
  ∧ (fst (listActors env_curated_listed bearer (initial 0))
     = Ret (success_reply [sample_actor "moJRLRc85AitArpNN";
                           sample_actor "moJRLRc85AitArpNN"]))
  ∧ ¬ NoDup (id <$> [sample_actor "moJRLRc85AitArpNN";
                     sample_actor "moJRLRc85AitArpNN"]).
Proof.
  split; [by vm_compute|]. split; [by vm_compute|]. split; [by vm_compute|].
  intros H. apply NoDup_cons in H as [H _]. apply H. cbn. apply list_elem_of_here.
Qed.

(** C3 (as amended).  Given credentials and successful, readable owned
    and accessible listing responses with items [o] and [a], the reply
    lists the owned items in their order, then exactly the accessible
    items whose id is not an owned id, in their order, then the curated
    additions.  No id of the first sub-list occurs in the second, and
    when neither listing repeats an id every id occurs exactly once
    across the two. *)
Theorem listActors_owned_then_accessible env header t0 r1 r2 o a :
  present (bearer_token header) = true →
  owned_listing env = Responded r1 → ok r1 = true → json r1 = Some o →
  accessible_listing env = Responded r2 → ok r2 = true → json r2 = Some a →
  ∃ curated w,
    listActors env header (initial t0)
    = (Ret (success_reply
              ((o ++ filter (fun x => id x ∉ (id <$> o)) a) ++ curated)), w)
    ∧ (∀ x, x ∈ filter (fun x => id x ∉ (id <$> o)) a →
            x ∈ a ∧ id x ∉ (id <$> o))
    ∧ (∀ x, x ∈ a → id x ∉ (id <$> o) →
            x ∈ filter (fun x => id x ∉ (id <$> o)) a)
    ∧ (NoDup (id <$> o) → NoDup (id <$> a) →
       NoDup (id <$> (o ++ filter (fun x => id x ∉ (id <$> o)) a))).
Proof.
  intros Hk H1 Hok1 Hj1 H2 Hok2 Hj2.
  assert (ok r1 = true → is_Some (json r1)) as Hr1 by (rewrite Hj1; eauto).
  assert (ok r2 = true → is_Some (json r2)) as Hr2 by (rewrite Hj2; eauto).
  destruct (listActors_merged env header t0 r1 r2 Hk H1 H2
              (or_introl Hok1) Hr1 Hr2) as (extra & w & _ & Hrun).
  exists extra, w. unfold listing_union in Hrun.
  rewrite H1, H2 in Hrun. cbn [listed] in Hrun.
  rewrite Hok1, Hok2, Hj1, Hj2 in Hrun. split; [exact Hrun|].
  split; [|split].
  - intros x Hx. apply list_elem_of_filter in Hx as [? ?]. done.
  - intros x Hx Hn. apply list_elem_of_filter. done.
  - apply union_NoDup.
Qed.

(** owned = {A, B} and accessible = {B, C} give [A, B, C]. *)
Lemma listActors_owned_then_accessible_witness :
  ∃ curated w,
    listActors env_AB_BC bearer (initial 0)
    = (Ret (success_reply
              (([sample_actor "A"; sample_actor "B"]
                ++ filter (fun x => id x ∉ (id <$> [sample_actor "A";
                                                    sample_actor "B"]))
                          [sample_actor "B"; sample_actor "C"])
               ++ curated)), w)
    ∧ (∀ x, x ∈ filter (fun x => id x ∉ (id <$> [sample_actor "A";
                                                  sample_actor "B"]))
                       [sample_actor "B"; sample_actor "C"] →
            x ∈ [sample_actor "B"; sample_actor "C"]
            ∧ id x ∉ (id <$> [sample_actor "A"; sample_actor "B"]))
    ∧ (∀ x, x ∈ [sample_actor "B"; sample_actor "C"] →
            id x ∉ (id <$> [sample_actor "A"; sample_actor "B"]) →
            x ∈ filter (fun x => id x ∉ (id <$> [sample_actor "A";
                                                  sample_actor "B"]))
                       [sample_actor "B"; sample_actor "C"])
    ∧ (NoDup (id <$> [sample_actor "A"; sample_actor "B"]) →
       NoDup (id <$> [sample_actor "B"; sample_actor "C"]) →
       NoDup (id <$> ([sample_actor "A"; sample_actor "B"]
                      ++ filter (fun x => id x ∉ (id <$> [sample_actor "A";
                                                          sample_actor "B"]))
                                [sample_actor "B"; sample_actor "C"]))).
Proof.
  apply (listActors_owned_then_accessible env_AB_BC bearer 0
           (ok_response [sample_actor "A"; sample_actor "B"])
           (ok_response [sample_actor "B"; sample_actor "C"]));
    reflexivity.
Defined.

(** The example of the specification, computed. *)
Example listActors_AB_BC :
  fst (listActors env_AB_BC bearer (initial 0))
  = Ret (success_reply [sample_actor "A"; sample_actor "B"; sample_actor "C"]).
Proof. by vm_compute. Qed.

(** C3, as stated, fails: both listings succeed, and the id A occurs
    twice in the owned sub-list of the reply. *)
Lemma listActors_owned_id_twice :
  fst (listActors env_owned_repeats bearer (initial 0))
  = Ret (success_reply ([sample_actor "A"; sample_actor "A"] ++ []))
  ∧ listing_failed (owned_listing env_owned_repeats) = false
  ∧ listing_failed (accessible_listing env_owned_repeats) = false
  ∧ ¬ NoDup (id <$> [sample_actor "A"; sample_actor "A"]).
Proof.
  split; [by vm_compute|]. split; [done|]. split; [done|].
  intros H. apply NoDup_cons in H as [H _]. apply H. cbn. apply list_elem_of_here.
Qed.

(** C4 (as amended).  Given credentials, when both listing fetches
    settle with a response and the successful ones are readable, the
    reply is an error envelope exactly when both responses have a
    non-success status, and then it carries the status of the owned
    response.  Whatever the curated lookups do, the reply is otherwise a
    success envelope that starts with the owned and accessible union,
    and it is that union when every curated lookup fails. *)
Theorem listActors_error_iff_both_failed env header t0 r1 r2 :
  present (bearer_token header) = true →
  owned_listing env = Responded r1 →
  accessible_listing env = Responded r2 →
  (ok r1 = true → is_Some (json r1)) →
  (ok r2 = true → is_Some (json r2)) →
  ∃ reply w,
    listActors env header (initial t0) = (Ret reply, w)
    ∧ (is_Some (la_error (payload reply)) ↔ ok r1 = false ∧ ok r2 = false)
    ∧ (is_Some (la_error (payload reply)) →
       code reply = status r1 ∧ actors (payload reply) = [])
    ∧ (la_error (payload reply) = None →
       code reply = 200
       ∧ ∃ curated, actors (payload reply) = listing_union env ++ curated)
    ∧ ((∀ c, c ∈ popularActors →
             lookup_failed (actor_detail env c) = true) →
       la_error (payload reply) = None →
       actors (payload reply) = listing_union env).
Proof.
  intros Hk H1 H2 Hj1 Hj2.
  assert ((ok r1 = false ∧ ok r2 = false) ∨ (ok r1 = true ∨ ok r2 = true))
    as [[Hok1 Hok2]|Hany] by (destruct (ok r1), (ok r2); auto).
  - eexists _, _. split; [by eapply listActors_both_failed|].
    cbn. split; [|split; [|split]]; done.
  - destruct (listActors_merged env header t0 r1 r2 Hk H1 H2 Hany Hj1 Hj2)
      as (extra & w & Hcur & Hrun).
    exists (success_reply (listing_union env ++ extra)), w.
    split; [exact Hrun|]; cbn.
    destruct Hcur as (_ & _ & _ & Hfail & _).
    split; [|split; [|split]].
    + split; [intros [? [=]] | intros [? ?]; destruct Hany; congruence].
    + intros [? [=]].
    + intros _; split; [done | by exists extra].
    + intros Hall _; by rewrite Hfail, app_nil_r.
Qed.

(** Both listings are reachable and succeed. *)
Lemma listActors_error_iff_both_failed_witness :
  ∃ reply w,
    listActors env_AB_BC bearer (initial 0) = (Ret reply, w)
    ∧ (is_Some (la_error (payload reply))
       ↔ ok (ok_response [sample_actor "A"; sample_actor "B"]) = false
         ∧ ok (ok_response [sample_actor "B"; sample_actor "C"]) = false)
    ∧ (is_Some (la_error (payload reply)) →
       code reply
       = status (ok_response [sample_actor "A"; sample_actor "B"])
       ∧ actors (payload reply) = [])
    ∧ (la_error (payload reply) = None →
       code reply = 200
       ∧ ∃ curated,
           actors (payload reply) = listing_union env_AB_BC ++ curated)
    ∧ ((∀ c, c ∈ popularActors →
             lookup_failed (actor_detail env_AB_BC c) = true) →
       la_error (payload reply) = None →
       actors (payload reply) = listing_union env_AB_BC).
Proof.
  apply (listActors_error_iff_both_failed env_AB_BC bearer 0
           (ok_response [sample_actor "A"; sample_actor "B"])
           (ok_response [sample_actor "B"; sample_actor "C"])).
  - reflexivity.
  - reflexivity.
  - reflexivity.
  - intros _. eexists. reflexivity.
  - intros _. eexists. reflexivity.
Defined.

(** C4, as stated, fails: the accessible listing succeeds, yet the
    reply is an error envelope, and its status 500 is not an upstream
    status. *)
Lemma listActors_error_with_one_listing :
  fst (listActors env_owned_rejected bearer (initial 0))
  = Ret (failure_reply 500 "Failed to fetch actors from Apify")
  ∧ listing_failed (accessible_listing env_owned_rejected) = false.
Proof. split; [by vm_compute | done]. Qed.

(** ** SchemaSynthesizer *)

(** C6 (as amended).  The property generated for a key and a value of
    the example payload has type [string] for a string (with format
    [textarea] exactly when the string is longer than 50), [number] for
    a number, [boolean] for a boolean, [array] for a sequence, and
    [object] for a nested record and for [null]. *)
Theorem example_property_type rt key value :
  property_type (example_property rt key value)
  = Some (JStr match value with
               | JStr _ => "string"
               | JNum _ => "number"
               | JBool _ => "boolean"
               | JArr _ => "array"
               | JObj _ => "object"
               | JNull => "object"
               end)
  ∧ property_format (example_property rt key value)
    = match value with
      | JStr s => if decide (50 < String.length s)%nat
                  then Some (JStr "textarea") else None
      | _ => None
      end.
Proof.
  destruct value as [|b|n|s|items|entries]; try (split; reflexivity).
  unfold example_property. cbn [typeof]. rewrite decide_True by done.
  destruct (50 <? Z.of_nat (String.length s))%Z eqn:Hlen.
  - apply Z.ltb_lt in Hlen. rewrite decide_True by lia. split; reflexivity.
  - apply Z.ltb_ge in Hlen. rewrite decide_False by lia. split; reflexivity.
Qed.

(** C6, as stated, fails: the property generated for a [null] value has
    type [object], not [string]. *)
Lemma example_property_null :
  property_type (example_property sample_runtime "proxy" JNull)
  = Some (JStr "object")
  ∧ property_type (example_property sample_runtime "proxy" JNull)
    ≠ Some (JStr "string").
Proof. split; [reflexivity | discriminate]. Qed.

(** The example of the specification: [{query: "foo", limit: 5, flag:
    true}] gives the types string, number and boolean and no format. *)
Example example_properties_sample :
  example_properties sample_runtime
    [("query", JStr "foo"); ("limit", JNum 5%Q); ("flag", JBool true)]
  = [("query", JObj [("title", JStr "Query");
                     ("description", JStr "Input parameter: query");
                     ("type", JStr "string")]);
     ("limit", JObj [("title", JStr "Limit");
                     ("description", JStr "Input parameter: limit");
                     ("type", JStr "number")]);
     ("flag", JObj [("title", JStr "Flag");
                    ("description", JStr "Input parameter: flag");
                    ("type", JStr "boolean")])].
Proof. reflexivity. Qed.

(** ** SchemaResolver *)

Lemma bind_ret {A B} (a : A) (k : A → M B) w : bind (ret a) k w = k a w.
Proof. reflexivity. Qed.

(** Once [schema] is set, the later steps leave it alone and request
    nothing. *)
Lemma later_steps_keep rt env key actorId d s :
  from_versions_endpoint env key actorId (Some s) = ret (Some s)
  ∧ from_tagged_build env key actorId d (Some s) = ret (Some s)
  ∧ from_builds_endpoint env key actorId (Some s) = ret (Some s)
  ∧ from_example rt d (Some s) = ret (Some s)
  ∧ from_predefined actorId (Some s) = ret (Some s)
  ∧ from_metadata rt d (Some s) = ret (Some s).
Proof.
  repeat split; try reflexivity.
  - unfold from_tagged_build. by destruct (taggedBuilds d) as [[?|]|].
  - unfold from_example. by destruct (exampleRunInput d).
Qed.







(** The version-embedded schema wins over the predefined one. *)
Example getActorSchema_embedded_first :
  getActorSchema sample_runtime env_with_version "nwua9Gu5YrADL7ZDj" bearer
    (initial 0)
  = (Ret {| code := 200;
            payload := {| schema := Some sample_schema; gs_error := None |} |},
     {| clock := 0;
        log := [get "apify_api_key" "/acts/nwua9Gu5YrADL7ZDj"] |}).
Proof. by vm_compute. Qed.

(** ** RunExecutor *)

Lemma append_ne (s t : string) : t ≠ "" → s +:+ t ≠ s.
Proof.
  intros Ht. induction s as [|c s IH]; cbn; [done|].
  intros [= H]. by apply IH.
Qed.

(** The three kinds of request of an invocation differ. *)
Lemma poll_not_dataset key actorId run0 :
  poll_request key actorId run0 ≠ dataset_request key actorId run0.
Proof.
  unfold poll_request, dataset_request, get, run_url, dataset_url.
  intros [= H]. repeat apply (inj (String.app _)) in H.
  symmetry in H. by apply append_ne in H.
Qed.

Lemma submit_not_get key actorId input path :
  submit_request key actorId input ≠ get key path.
Proof. discriminate. Qed.

Section ExecutorFacts.
Variable env : ExecutorEnv.
Variable key : string.
Variable actorId : string.
Variable run0 : ApifyRun.
Variable startTime : Z.

Local Abbreviation rq := (poll_request key actorId run0).
Local Abbreviation loop := (poll_loop env key actorId run0 startTime).

(** One turn of the loop. *)
Lemma poll_loop_unfold fuel k finalRun w :
  loop (S fuel) k finalRun w
  = if decide (run_status finalRun = RUNNING) then
      if (clock w - startTime <? maxWaitTime)%Z then
        match poll_answer env k with
        | Rejected =>
            (Throw FetchFailed,
             {| clock := clock w
                         + (pollInterval + Z.of_N (timer_lateness env k));
                log := log w ++ [rq] |})
        | Responded r =>
            if ok r then
              match json r with
              | Some b => loop fuel (S k) b (after_poll env rq k w)
              | None => (Throw BodyUnreadable, after_poll env rq k w)
              end
            else loop fuel (S k) finalRun (after_poll env rq k w)
        end
      else (Ret finalRun, w)
    else (Ret finalRun, w).
Proof.
  unfold loop. cbn [poll_loop].
  destruct (decide (run_status finalRun = RUNNING)); [|reflexivity].
  unfold bind at 1, Date_now at 1.
  destruct (clock w - startTime <? maxWaitTime)%Z; [|reflexivity].
  unfold_monad. cbn [clock log].
  destruct (poll_answer env k) as [|r]; [reflexivity|].
  destruct (ok r); [destruct (json r)|]; reflexivity.
Qed.

(** A run that is not [RUNNING] ends the loop at once, whatever the
    fuel. *)
Lemma poll_loop_not_running fuel k finalRun w :
  run_status finalRun ≠ RUNNING →
  loop fuel k finalRun w = (Ret finalRun, w).
Proof.
  intros H. unfold loop.
  destruct fuel; cbn [poll_loop]; by rewrite decide_False.
Qed.

(** The loop with enough fuel for the time that is left.  It ends
    after some number [n] of polls, either normally, with the run
    observed after [n] polls, because that run is not [RUNNING] or
    because the ceiling is reached; or with the exception of the poll
    that threw. *)
Lemma poll_loop_outcome fuel : ∀ k w,
  maxWaitTime - (clock w - startTime) ≤ pollInterval * Z.of_nat fuel →
  ∃ n w',
    (k ≤ n)%nat
    ∧ clock w + pollInterval * Z.of_nat (n - k) ≤ clock w'
    ∧ (∀ j, (k ≤ j < n)%nat →
            run_status (observed env run0 j) = RUNNING
            ∧ poll_throws (poll_answer env j) = false)
    ∧ ((loop fuel k (observed env run0 k) w
        = (Ret (observed env run0 n), w')
        ∧ log w' = log w ++ replicate (n - k) rq
        ∧ (run_status (observed env run0 n) ≠ RUNNING
           ∨ maxWaitTime ≤ clock w' - startTime))
       ∨ (∃ e, loop fuel k (observed env run0 k) w = (Throw e, w')
               ∧ log w' = log w ++ replicate (S (n - k)) rq
               ∧ run_status (observed env run0 n) = RUNNING
               ∧ poll_throws (poll_answer env n) = true)).
Proof.
  unfold maxWaitTime, pollInterval.
  induction fuel as [|fuel IH]; intros k w Hfuel.
  - exists k, w. rewrite Nat.sub_diag. split; [done|].
    split; [lia|]. split; [lia|]. left. cbn [replicate].
    rewrite app_nil_r. split; [|split; [done|]].
    + unfold loop. cbn [poll_loop].
      destruct (decide (run_status (observed env run0 k) = RUNNING));
        [|reflexivity].
      unfold bind, Date_now. unfold maxWaitTime.
      destruct (Z.ltb_spec (clock w - startTime) 60000); [lia|reflexivity].
    + right. unfold maxWaitTime. lia.
  - rewrite poll_loop_unfold.
    destruct (decide (run_status (observed env run0 k) = RUNNING))
      as [Hrun|Hrun].
    2: { exists k, w. rewrite Nat.sub_diag. split; [done|].
         split; [lia|]. split; [lia|]. left. cbn [replicate].
         rewrite app_nil_r. auto. }
    unfold maxWaitTime.
    destruct (Z.ltb_spec (clock w - startTime) 60000) as [Hlt|Hge].
    2: { exists k, w. rewrite Nat.sub_diag. split; [done|].
         split; [lia|]. split; [lia|]. left. cbn [replicate].
         rewrite app_nil_r. split; [done|]. split; [done|].
         right. unfold maxWaitTime. lia. }
    assert (poll_throws (poll_answer env k) = false →
            ∃ n w',
              (k ≤ n)%nat
              ∧ clock w + 2000 * Z.of_nat (n - k) ≤ clock w'
              ∧ (∀ j, (k ≤ j < n)%nat →
                      run_status (observed env run0 j) = RUNNING
                      ∧ poll_throws (poll_answer env j) = false)
              ∧ ((loop fuel (S k) (observed env run0 (S k))
                       (after_poll env rq k w)
                  = (Ret (observed env run0 n), w')
                  ∧ log w' = log w ++ replicate (n - k) rq
                  ∧ (run_status (observed env run0 n) ≠ RUNNING
                     ∨ 60000 ≤ clock w' - startTime))
                 ∨ (∃ e, loop fuel (S k) (observed env run0 (S k))
                              (after_poll env rq k w)
                         = (Throw e, w')
                         ∧ log w' = log w ++ replicate (S (n - k)) rq
                         ∧ run_status (observed env run0 n) = RUNNING
                         ∧ poll_throws (poll_answer env n) = true)))
      as Hnext.
    { intros Hp.
      destruct (IH (S k) (after_poll env rq k w))
        as (n & w' & Hn & Hclock & Hall & Hres).
      { unfold after_poll, pollInterval. cbn [clock]. lia. }
      unfold after_poll, pollInterval in Hclock. cbn [clock] in Hclock.
      exists n, w'. split; [lia|]. split; [lia|].
      replace (n - k)%nat with (S (n - S k)) by lia.
      cbn [replicate]. unfold after_poll in Hres at 2 4. cbn [log] in Hres.
      rewrite <- !app_assoc in Hres. cbn [app] in Hres.
      split; [|exact Hres].
      intros j Hj. destruct (decide (j = k)) as [->|Hne]; [done|].
      apply Hall. lia. }
    destruct (poll_answer env k) as [|r] eqn:Hpoll.
    { exists k, {| clock := clock w + (2000 + Z.of_N (timer_lateness env k));
                   log := log w ++ [rq] |}.
      rewrite Nat.sub_diag. cbn [clock replicate].
      split; [done|]. split; [lia|]. split; [lia|].
      right. exists FetchFailed. rewrite Hpoll. done. }
    cbn [observed] in Hnext. rewrite Hpoll in Hnext.
    cbn [poll_throws] in Hnext.
    destruct (ok r) eqn:Hok; [destruct (json r) as [b|] eqn:Hj|].
    + apply Hnext. reflexivity.
    + exists k, (after_poll env rq k w).
      rewrite Nat.sub_diag. unfold after_poll, pollInterval.
      cbn [clock log replicate].
      split; [done|]. split; [lia|]. split; [lia|].
      right. exists BodyUnreadable. rewrite Hpoll. cbn. rewrite Hok, Hj.
      done.
    + by apply Hnext.
Qed.
End ExecutorFacts.

(** The dataset is requested exactly when the final run has succeeded,
    and the block never throws. *)
Lemma fetch_results_spec env key actorId run0 finalRun w :
  fetch_results env key actorId run0 finalRun w
  = (Ret (fetched_items env finalRun),
     {| clock := clock w;
        log := log w ++ (if decide (run_status finalRun = SUCCEEDED)
                         then [dataset_request key actorId run0] else []) |}).
Proof.
  unfold fetch_results, fetched_items.
  destruct (decide (run_status finalRun = SUCCEEDED)).
  - unfold_monad. cbn [clock log].
    destruct (dataset_answer env) as [|r]; [reflexivity|].
    destruct (ok r); [destruct (json r)|]; reflexivity.
  - unfold ret. rewrite app_nil_r. by destruct w.
Qed.

(** An invocation whose run was submitted: it polls [n] times and then
    replies with the run observed last, or a poll throws and the outer
    [catch] replies. *)
Lemma executeActor_submitted env actorId input header t0 r run0 :
  present (bearer_token header) = true →
  truthy_string actorId = true →
  submit_answer env = Responded r → ok r = true → json r = Some run0 →
  let key := default "" (bearer_token header) in
  ∃ n w,
    (∀ j, (j < n)%nat →
          run_status (observed env run0 j) = RUNNING
          ∧ poll_throws (poll_answer env j) = false)
    ∧ t0 + pollInterval * Z.of_nat n ≤ clock w
    ∧ ((executeActor env actorId input header (initial t0)
        = (Ret (executed (observed env run0 n)
                         (fetched_items env (observed env run0 n))), w)
        ∧ log w
          = submit_request key actorId input
            :: replicate n (poll_request key actorId run0)
            ++ (if decide (run_status (observed env run0 n) = SUCCEEDED)
                then [dataset_request key actorId run0] else [])
        ∧ (run_status (observed env run0 n) ≠ RUNNING
           ∨ maxWaitTime ≤ clock w - t0))
       ∨ (executeActor env actorId input header (initial t0)
          = (Ret (not_executed 500 "Failed to execute actor"), w)
          ∧ log w
            = submit_request key actorId input
              :: replicate (S n) (poll_request key actorId run0)
          ∧ run_status (observed env run0 n) = RUNNING
          ∧ poll_throws (poll_answer env n) = true)).
Proof.
  intros Hk Hid Hs Hok Hj key.
  set (w0 := {| clock := t0; log := [submit_request key actorId input] |}).
  destruct (poll_loop_outcome env key actorId run0 t0 max_polls 0 w0)
    as (n & w' & _ & Hclock & Hall & Hres).
  { change (Z.of_nat max_polls) with 30.
    unfold maxWaitTime, pollInterval, w0. cbn [clock]. lia. }
  rewrite Nat.sub_0_r in *. cbn [clock w0] in Hclock.
  assert (executeActor env actorId input header (initial t0)
          = try_catch
              (finalRun <- poll_loop env key actorId run0 t0 max_polls 0 run0 ;;
               results <- fetch_results env key actorId run0 finalRun ;;
               send 200 {| run := Some finalRun;
                           results := results_field results;
                           ex_error := None |})
              (fun _ => send 500 {| run := None; results := None;
                                    ex_error := Some "Failed to execute actor" |})
              w0) as Hrun.
  { unfold executeActor. rewrite Hk, Hid. cbn [negb]. fold key.
    unfold try_catch, fetch, start_fetch, await, bind at 1 2.
    cbn [initial log clock app]. rewrite Hs. unfold ret at 1.
    rewrite Hok. cbn [negb]. unfold bind at 1, read_json. rewrite Hj.
    unfold ret at 1. unfold bind at 1, Date_now. cbn [clock].
    reflexivity. }
  cbn [observed] in Hres.
  destruct Hres as [(Hloop & Hlog & Hexit)|(e & Hloop & Hlog & Hrunning & Ht)].
  - exists n, {| clock := clock w';
                 log := log w'
                        ++ (if decide (run_status (observed env run0 n)
                                       = SUCCEEDED)
                            then [dataset_request key actorId run0]
                            else []) |}.
    cbn [clock log]. split; [intros j Hj'; apply Hall; lia|].
    split; [done|]. left. split; [|split].
    + rewrite Hrun. unfold try_catch, bind at 1. rewrite Hloop.
      unfold bind at 1. rewrite fetch_results_spec. reflexivity.
    + rewrite Hlog. by rewrite <- app_assoc.
    + destruct Hexit as [?|?]; [by left | right; lia].
  - exists n, w'. split; [intros j Hj'; apply Hall; lia|].
    split; [done|]. right. split; [|done].
    rewrite Hrun. unfold try_catch, bind at 1. rewrite Hloop. reflexivity.
Qed.

(** Every invocation ends with a reply: an error envelope without a
    run, or the run observed last with the fetched items. *)
Lemma executeActor_outcome env actorId input header t0 :
  let key := default "" (bearer_token header) in
  (∃ c msg w,
     executeActor env actorId input header (initial t0)
     = (Ret (not_executed c msg), w))
  ∨ (∃ r run0 n w,
       submit_answer env = Responded r ∧ ok r = true ∧ json r = Some run0
       ∧ executeActor env actorId input header (initial t0)
         = (Ret (executed (observed env run0 n)
                          (fetched_items env (observed env run0 n))), w)
       ∧ log w
         = submit_request key actorId input
           :: replicate n (poll_request key actorId run0)
           ++ (if decide (run_status (observed env run0 n) = SUCCEEDED)
               then [dataset_request key actorId run0] else [])
       ∧ (∀ j, (j < n)%nat → run_status (observed env run0 j) = RUNNING)
       ∧ (run_status (observed env run0 n) ≠ RUNNING
          ∨ maxWaitTime ≤ clock w - t0)).
Proof.
  intros key.
  destruct (present (bearer_token header)) eqn:Hk.
  2: { left. eexists _, _, _. unfold executeActor. rewrite Hk. reflexivity. }
  destruct (truthy_string actorId) eqn:Hid.
  2: { left. eexists _, _, _. unfold executeActor. rewrite Hk, Hid.
       reflexivity. }
  destruct (submit_answer env) as [|r] eqn:Hs.
  { left. eexists _, _, _. unfold executeActor. rewrite Hk, Hid.
    unfold_monad. rewrite Hs. reflexivity. }
  destruct (ok r) eqn:Hok.
  2: { left. eexists _, _, _. unfold executeActor. rewrite Hk, Hid.
       unfold_monad. rewrite Hs. cbn -[pretty]. rewrite Hok. reflexivity. }
  destruct (json r) as [run0|] eqn:Hj.
  2: { left. eexists _, _, _. unfold executeActor. rewrite Hk, Hid.
       unfold_monad. rewrite Hs. cbn -[pretty]. rewrite Hok, Hj.
       reflexivity. }
  destruct (executeActor_submitted env actorId input header t0 r run0
              Hk Hid Hs Hok Hj)
    as (n & w & Hall & _ & [(Hrun & Hlog & Hexit)|(Hrun & _)]).
  - right. exists r, run0, n, w. repeat (split; [done|]).
    split; [|done]. intros j Hj'. by apply Hall.
  - left. by eexists _, _, _.
Qed.

(** The loop polls at most once per unit of fuel and requests nothing
    else. *)
Lemma poll_loop_polls env key actorId run0 startTime fuel :
  ∀ k finalRun w,
    ∃ m, (m ≤ fuel)%nat
         ∧ log (snd (poll_loop env key actorId run0 startTime fuel k
                       finalRun w))
           = log w ++ replicate m (poll_request key actorId run0).
Proof.
  induction fuel as [|fuel IH]; intros k finalRun w.
  - exists 0%nat. split; [done|]. cbn [replicate poll_loop].
    rewrite app_nil_r.
    destruct (decide (run_status finalRun = RUNNING)); [|reflexivity].
    unfold bind, Date_now.
    destruct (clock w - startTime <? maxWaitTime)%Z; reflexivity.
  - rewrite poll_loop_unfold.
    assert (∀ finalRun',
              ∃ m, (m ≤ S fuel)%nat
                   ∧ log (snd (poll_loop env key actorId run0 startTime fuel
                                 (S k) finalRun'
                                 (after_poll env
                                    (poll_request key actorId run0) k w)))
                     = log w ++ replicate m (poll_request key actorId run0))
      as Hnext.
    { intros finalRun'.
      destruct (IH (S k) finalRun'
                  (after_poll env (poll_request key actorId run0) k w))
        as (m & Hm & Hlog).
      exists (S m). split; [lia|]. rewrite Hlog. cbn [after_poll log replicate].
      by rewrite <- app_assoc. }
    assert (∃ m, (m ≤ S fuel)%nat
                 ∧ log w = log w ++ replicate m (poll_request key actorId run0))
      as Hstop.
    { exists 0%nat. split; [lia|]. by rewrite app_nil_r. }
    assert (∃ m, (m ≤ S fuel)%nat
                 ∧ log w ++ [poll_request key actorId run0]
                   = log w ++ replicate m (poll_request key actorId run0))
      as Hone.
    { exists 1%nat. split; [lia|]. done. }
    destruct (decide (run_status finalRun = RUNNING)); [|exact Hstop].
    destruct (clock w - startTime <? maxWaitTime)%Z; [|exact Hstop].
    destruct (poll_answer env k) as [|r]; [exact Hone|].
    destruct (ok r); [destruct (json r)|]; [apply Hnext|exact Hone|apply Hnext].
Qed.

Lemma replicate_app_inj {A} (x : A) : ∀ n m l1 l2,
  x ∉ l1 → x ∉ l2 → replicate n x ++ l1 = replicate m x ++ l2 → n = m.
Proof.
  induction n as [|n IH]; intros [|m] l1 l2 H1 H2 Heq; cbn in Heq.
  - done.
  - subst l1. exfalso. apply H1, list_elem_of_here.
  - subst l2. exfalso. apply H2, list_elem_of_here.
  - injection Heq as Heq. f_equal. by apply (IH m l1 l2).
Qed.

(** Every call of [executeActor] up to the loop. *)
Lemma executeActor_run env actorId input header t0 :
  let key := default "" (bearer_token header) in
  let w0 := {| clock := t0; log := [submit_request key actorId input] |} in
  executeActor env actorId input header (initial t0)
  = if negb (present (bearer_token header)) then
      (Ret (not_executed 401 "API key is required"), initial t0)
    else if negb (truthy_string actorId) then
      (Ret (not_executed 400 "Actor ID is required"), initial t0)
    else
      match submit_answer env with
      | Rejected => (Ret (not_executed 500 "Failed to execute actor"), w0)
      | Responded r =>
          if ok r then
            match json r with
            | Some run0 =>
                try_catch
                  (finalRun <- poll_loop env key actorId run0 t0
                                         max_polls 0 run0 ;;
                   results <- fetch_results env key actorId run0 finalRun ;;
                   send 200 {| run := Some finalRun;
                               results := results_field results;
                               ex_error := None |})
                  (fun _ => send 500
                              {| run := None; results := None;
                                 ex_error := Some "Failed to execute actor" |})
                  w0
            | None => (Ret (not_executed 500 "Failed to execute actor"), w0)
            end
          else
            (Ret (not_executed (status r)
                    ("Failed to start actor run: "
                     +:+ pretty (status r) +:+ " " +:+ statusText r)), w0)
      end.
Proof.
  intros key w0. unfold executeActor.
  destruct (present (bearer_token header)); cbn [negb]; [|reflexivity].
  destruct (truthy_string actorId); cbn [negb]; [|reflexivity].
  fold key.
  unfold try_catch at 1, fetch, start_fetch, await, bind at 1 2.
  cbn [initial log clock app].
  destruct (submit_answer env) as [|r]; [reflexivity|].
  unfold ret at 1. destruct (ok r); cbn [negb]; [|reflexivity].
  unfold bind at 1, read_json. destruct (json r) as [run0|]; [|reflexivity].
  unfold ret at 1. unfold bind at 1, Date_now. cbn [clock].
  reflexivity.
Qed.

(** The requests of a call whose run was submitted. *)
Lemma executeActor_submitted_log env actorId input header t0 r run0 :
  present (bearer_token header) = true →
  truthy_string actorId = true →
  submit_answer env = Responded r → ok r = true → json r = Some run0 →
  let key := default "" (bearer_token header) in
  ∃ m tail,
    (m ≤ 30)%nat
    ∧ (tail = [] ∨ tail = [dataset_request key actorId run0])
    ∧ log (snd (executeActor env actorId input header (initial t0)))
      = submit_request key actorId input
        :: replicate m (poll_request key actorId run0) ++ tail.
Proof.
  intros Hk Hid Hs Hok Hj key.
  rewrite executeActor_run, Hk, Hid, Hs, Hok, Hj. cbn [negb]. fold key.
  set (w0 := {| clock := t0; log := [submit_request key actorId input] |}).
  destruct (poll_loop_polls env key actorId run0 t0 max_polls 0 run0 w0)
    as (m & Hm & Hlog).
  change max_polls with 30%nat in Hm.
  unfold try_catch, bind at 1.
  destruct (poll_loop env key actorId run0 t0 max_polls 0 run0 w0)
    as [[finalRun|e|] w'] eqn:Hloop; cbn [snd] in Hlog.
  - unfold bind at 1. rewrite fetch_results_spec. cbn [snd log send ret].
    exists m. eexists. split; [done|]. rewrite Hlog. cbn [w0 log app].
    split; [|reflexivity].
    destruct (decide (run_status finalRun = SUCCEEDED)); auto.
  - exists m, []. split; [done|]. split; [by left|].
    cbn [snd send ret]. rewrite Hlog, app_nil_r. reflexivity.
  - exists m, []. split; [done|]. split; [by left|].
    cbn [snd]. rewrite Hlog, app_nil_r. reflexivity.
Qed.

(** C2.  The code at the input of the claim: the run is created READY
    and the platform would report RUNNING and then SUCCEEDED.  The
    executor sends its submit request and nothing else: it never polls,
    never fetches the dataset, and replies with the READY run and no
    results. *)
Theorem executeActor_ready_start :
  executeActor env_ready_start "moJRLRc85AitArpNN" None bearer (initial 0)
  = (Ret {| code := 200;
            payload := {| run := Some (sample_run READY);
                          results := None; ex_error := None |} |},
     {| clock := 0;
        log := [submit_request "apify_api_key" "moJRLRc85AitArpNN" None] |}).
Proof. by vm_compute. Qed.

(** Created RUNNING, the same run is polled twice and its dataset is
    fetched once. *)
Example executeActor_running_start :
  executeActor env_running_start "moJRLRc85AitArpNN" None bearer (initial 0)
  = (Ret {| code := 200;
            payload := {| run := Some (sample_run SUCCEEDED);
                          results := Some sample_items;
                          ex_error := None |} |},
     {| clock := 4306;
        log := [submit_request "apify_api_key" "moJRLRc85AitArpNN" None;
                poll_request "apify_api_key" "moJRLRc85AitArpNN"
                  (sample_run RUNNING);
                poll_request "apify_api_key" "moJRLRc85AitArpNN"
                  (sample_run RUNNING);
                dataset_request "apify_api_key" "moJRLRc85AitArpNN"
                  (sample_run RUNNING)] |}).
Proof. by vm_compute. Qed.

(** The loop when every turn entered before the ceiling leaves the
    run RUNNING without throwing: it is left at the first test made
    when the ceiling has elapsed. *)
Lemma poll_loop_ceiling env key actorId run0 t0 fuel : ∀ k w,
  clock w = t0 + elapsed_before env k →
  run_status (observed env run0 k) = RUNNING →
  (∀ j, elapsed_before env j < maxWaitTime →
        poll_throws (poll_answer env j) = false
        ∧ run_status (observed env run0 (S j)) = RUNNING) →
  maxWaitTime - elapsed_before env k ≤ pollInterval * Z.of_nat fuel →
  ∃ n,
    (k ≤ n)%nat ∧ (n - k ≤ fuel)%nat
    ∧ poll_loop env key actorId run0 t0 fuel k (observed env run0 k) w
      = (Ret (observed env run0 n),
         {| clock := t0 + elapsed_before env n;
            log := log w ++ replicate (n - k)
                              (poll_request key actorId run0) |})
    ∧ run_status (observed env run0 n) = RUNNING
    ∧ maxWaitTime ≤ elapsed_before env n
    ∧ ∀ j, (k ≤ j < n)%nat → elapsed_before env j < maxWaitTime.
Proof.
  induction fuel as [|fuel IH]; intros k w Hclock Hrun Hall Hfuel.
  - exists k. rewrite Nat.sub_diag. cbn [replicate]. rewrite app_nil_r.
    split; [done|]. split; [done|]. rewrite <- Hclock.
    split; [|split; [done|split; [lia|intros j; lia]]].
    cbn [poll_loop]. rewrite decide_True by done.
    unfold bind, Date_now.
    destruct (Z.ltb_spec (clock w - t0) maxWaitTime); [lia|].
    by destruct w.
  - rewrite poll_loop_unfold. rewrite decide_True by done.
    destruct (Z.ltb_spec (clock w - t0) maxWaitTime) as [Hlt|Hge].
    2: { exists k. rewrite Nat.sub_diag. cbn [replicate]. rewrite app_nil_r.
         split; [done|]. split; [lia|]. rewrite <- Hclock.
         split; [by destruct w|]. split; [done|].
         split; [lia|intros j; lia]. }
    destruct (Hall k) as [Hquiet Hnext]; [lia|].
    assert (∀ w',
              clock w' = t0 + elapsed_before env (S k) →
              log w' = log w ++ [poll_request key actorId run0] →
              ∃ n,
                (k ≤ n)%nat ∧ (n - k ≤ S fuel)%nat
                ∧ poll_loop env key actorId run0 t0 fuel (S k)
                    (observed env run0 (S k)) w'
                  = (Ret (observed env run0 n),
                     {| clock := t0 + elapsed_before env n;
                        log := log w ++ replicate (n - k)
                                 (poll_request key actorId run0) |})
                ∧ run_status (observed env run0 n) = RUNNING
                ∧ maxWaitTime ≤ elapsed_before env n
                ∧ ∀ j, (k ≤ j < n)%nat → elapsed_before env j < maxWaitTime)
      as Hstep.
    { intros w' Hclock' Hlog'.
      destruct (IH (S k) w' Hclock' Hnext Hall) as (n & Hn & Hm & Hloop & Hrest).
      { cbn [elapsed_before]. unfold pollInterval in *. lia. }
      exists n. split; [lia|]. split; [lia|].
      rewrite Hloop, Hlog'.
      replace (n - k)%nat with (S (n - S k)) by lia. cbn [replicate].
      rewrite <- app_assoc. split; [done|].
      destruct Hrest as (? & ? & Hbefore). split; [done|]. split; [done|].
      intros j Hj. destruct (decide (j = k)) as [->|Hne]; [lia|].
      apply Hbefore. lia. }
    assert (clock (after_poll env (poll_request key actorId run0) k w)
            = t0 + elapsed_before env (S k)) as Hafter.
    { unfold after_poll. cbn [clock elapsed_before]. lia. }
    cbn [observed] in Hstep.
    destruct (poll_answer env k) as [|r]; [discriminate|].
    destruct (ok r) eqn:Hok; [destruct (json r) as [b|] eqn:Hbody|].
    + by apply Hstep.
    + cbn [poll_throws] in Hquiet. rewrite Hok, Hbody in Hquiet.
      discriminate.
    + by apply Hstep.
Qed.

(** C7.  An invocation whose run was submitted as RUNNING, in which
    every turn of the poll loop entered before the ceiling has elapsed
    is answered without throwing and leaves the run RUNNING, replies
    with a success envelope: its status is 200, it has no error and no
    results, and it carries the run observed last, which is still
    RUNNING.  The reply is sent at the first test of the loop made when
    the ceiling has elapsed, after at most thirty polls, and the
    requests of the invocation are the submit request and these polls
    only, so the dataset is not fetched. *)
Theorem executeActor_ceiling env actorId input header t0 r run0 :
  present (bearer_token header) = true →
  truthy_string actorId = true →
  submit_answer env = Responded r → ok r = true → json r = Some run0 →
  run_status run0 = RUNNING →
  (∀ j, elapsed_before env j < maxWaitTime →
        poll_throws (poll_answer env j) = false
        ∧ run_status (observed env run0 (S j)) = RUNNING) →
  let key := default "" (bearer_token header) in
  ∃ n w,
    executeActor env actorId input header (initial t0)
    = (Ret {| code := 200;
              payload := {| run := Some (observed env run0 n);
                            results := None; ex_error := None |} |}, w)
    ∧ run_status (observed env run0 n) = RUNNING
    ∧ (n ≤ max_polls)%nat
    ∧ clock w = t0 + elapsed_before env n
    ∧ maxWaitTime ≤ clock w - t0
    ∧ (∀ j, (j < n)%nat → elapsed_before env j < maxWaitTime)
    ∧ log w
      = submit_request key actorId input
        :: replicate n (poll_request key actorId run0)
    ∧ dataset_request key actorId run0 ∉ log w.
Proof.
  intros Hk Hid Hs Hok Hj Hrun0 Hall key.
  set (w0 := {| clock := t0; log := [submit_request key actorId input] |}).
  assert (clock w0 = t0 + elapsed_before env 0) as Hstart
    by (unfold w0; cbn [clock elapsed_before]; lia).
  assert (maxWaitTime - elapsed_before env 0
          ≤ pollInterval * Z.of_nat max_polls) as Hfuel.
  { cbn [elapsed_before]. change (Z.of_nat max_polls) with 30.
    unfold maxWaitTime, pollInterval. lia. }
  destruct (poll_loop_ceiling env key actorId run0 t0 max_polls 0 w0
              Hstart Hrun0 Hall Hfuel)
    as (n & _ & Hn & Hloop & Hst & Hceiling & Hbefore).
  rewrite Nat.sub_0_r in Hn, Hloop. cbn [observed] in Hloop.
  exists n. eexists.
  rewrite executeActor_run, Hk, Hid, Hs, Hok, Hj. cbn [negb]. fold key w0.
  unfold try_catch, bind at 1. rewrite Hloop.
  unfold bind at 1. rewrite fetch_results_spec.
  rewrite decide_False by (by rewrite Hst). rewrite app_nil_r.
  assert (fetched_items env (observed env run0 n) = []) as ->.
  { unfold fetched_items. rewrite decide_False; [done|]. by rewrite Hst. }
  cbn [clock log w0 app].
  split; [reflexivity|]. split; [done|]. split; [done|]. split; [done|].
  split; [cbn [clock]; lia|]. split; [intros j Hlt; apply Hbefore; lia|].
  cbn [log]. split; [by unfold w0|].
  intros Hin. apply elem_of_cons in Hin as [Hin|Hin].
  - symmetry in Hin. by apply submit_not_get in Hin.
  - apply elem_of_replicate in Hin as [Hin _].
    symmetry in Hin. by apply poll_not_dataset in Hin.
Qed.

(** The run never leaves RUNNING and every poll is answered. *)
Lemma executeActor_ceiling_witness :
  let key := default "" (bearer_token bearer) in
  ∃ n w,
    executeActor env_stuck "moJRLRc85AitArpNN" None bearer (initial 0)
    = (Ret {| code := 200;
              payload := {| run := Some (observed env_stuck
                                           (sample_run RUNNING) n);
                            results := None; ex_error := None |} |}, w)
    ∧ run_status (observed env_stuck (sample_run RUNNING) n) = RUNNING
    ∧ (n ≤ max_polls)%nat
    ∧ clock w = 0 + elapsed_before env_stuck n
    ∧ maxWaitTime ≤ clock w - 0
    ∧ (∀ j, (j < n)%nat → elapsed_before env_stuck j < maxWaitTime)
    ∧ log w
      = submit_request key "moJRLRc85AitArpNN" None
        :: replicate n (poll_request key "moJRLRc85AitArpNN"
                          (sample_run RUNNING))
    ∧ dataset_request key "moJRLRc85AitArpNN" (sample_run RUNNING) ∉ log w.
Proof.
  apply (executeActor_ceiling env_stuck "moJRLRc85AitArpNN" None bearer 0
           (ok_response (sample_run RUNNING)) (sample_run RUNNING));
    try reflexivity.
  intros j _. split; reflexivity.
Defined.

(** C7, as stated, fails: the run is RUNNING at every poll that is
    answered and the ceiling elapses during the sleep before the
    twenty-eighth poll; the fetch of that poll rejects, and the call
    ends with the error envelope of the outer [catch], which carries no
    run. *)
Lemma executeActor_rejected_after_ceiling :
  (∀ j, run_status (observed env_rejected_after_ceiling
                      (sample_run RUNNING) j) = RUNNING)
  ∧ ∃ w,
      executeActor env_rejected_after_ceiling "moJRLRc85AitArpNN" None bearer
        (initial 0)
      = (Ret {| code := 500;
                payload := {| run := None; results := None;
                              ex_error := Some "Failed to execute actor" |} |},
         w)
      ∧ clock w = 60134
      ∧ maxWaitTime ≤ clock w - 0
      ∧ log w
        = submit_request "apify_api_key" "moJRLRc85AitArpNN" None
          :: replicate 28 (poll_request "apify_api_key" "moJRLRc85AitArpNN"
                             (sample_run RUNNING)).
Proof.
  split.
  - intros j. induction j as [|j IH]; [reflexivity|].
    cbn [observed env_rejected_after_ceiling poll_answer].
    destruct (j <? 27)%nat; [reflexivity | exact IH].
  - eexists. split; [by vm_compute|]. split; [reflexivity|].
    split; [by vm_compute | reflexivity].
Qed.

(** A run that never leaves RUNNING: thirty polls, two seconds apart,
    and the reply carries the RUNNING run without results. *)
Example executeActor_stuck :
  ∃ w,
    executeActor env_stuck "moJRLRc85AitArpNN" None bearer (initial 0)
    = (Ret {| code := 200;
              payload := {| run := Some (sample_run RUNNING);
                            results := None; ex_error := None |} |}, w)
    ∧ clock w = 60000
    ∧ log w
      = submit_request "apify_api_key" "moJRLRc85AitArpNN" None
        :: replicate 30 (poll_request "apify_api_key" "moJRLRc85AitArpNN"
                           (sample_run RUNNING)).
Proof. eexists. split; [by vm_compute|]. split; reflexivity. Qed.

(** C9.  Every invocation ends with a reply.  In a success envelope the
    [results] field is present exactly when the fetched item list is not
    empty, and then it is that list: a final run that SUCCEEDED with an
    empty dataset gives no [results], as does a dataset fetch that
    fails.  An error envelope has no [results]. *)
Theorem executeActor_results env actorId input header t0 :
  ∃ reply w,
    executeActor env actorId input header (initial t0) = (Ret reply, w)
    ∧ (∀ finalRun, run (payload reply) = Some finalRun →
         results (payload reply) = results_field (fetched_items env finalRun)
         ∧ (is_Some (results (payload reply))
            ↔ fetched_items env finalRun ≠ [])
         ∧ (∀ items, results (payload reply) = Some items →
                     items = fetched_items env finalRun
                     ∧ run_status finalRun = SUCCEEDED
                     ∧ ∃ r, dataset_answer env = Responded r
                            ∧ ok r = true ∧ json r = Some items))
    ∧ (run (payload reply) = None → results (payload reply) = None).
Proof.
  assert (∀ l, is_Some (results_field l) ↔ l ≠ []) as Hfield.
  { intros l. unfold results_field.
    destruct (Z.ltb_spec 0 (Z.of_nat (length l))) as [Hl|Hl].
    - split; [|eauto]. intros _ ->. cbn in Hl. lia.
    - split; [by intros [? [=]]|]. intros Hne. destruct l; [done|].
      cbn [length] in Hl. lia. }
  assert (∀ l items, results_field l = Some items → items = l) as Hsome.
  { intros l items. unfold results_field.
    destruct (0 <? Z.of_nat (length l))%Z; by intros [=]. }
  destruct (executeActor_outcome env actorId input header t0)
    as [(c & msg & w & Hrun)
       |(r0 & run0 & n & w & _ & _ & _ & Hrun & _)].
  - exists (not_executed c msg), w. split; [done|]. split; [|done].
    intros r [=].
  - eexists _, w. split; [exact Hrun|]. cbn. split; [|done].
    intros finalRun [= <-]. split; [done|]. split; [apply Hfield|].
    intros items Hitems. pose proof (Hsome _ _ Hitems) as ->.
    split; [done|].
    assert (fetched_items env (observed env run0 n) ≠ []) as Hne
      by (apply Hfield; rewrite Hitems; eauto).
    revert Hne. unfold fetched_items.
    destruct (decide (run_status (observed env run0 n) = SUCCEEDED));
      [|done].
    destruct (dataset_answer env) as [|r]; [done|].
    destruct (ok r) eqn:Hok; [|done].
    destruct (json r) as [l|] eqn:Hj; [|done].
    intros _. split; [done|]. by exists r.
Qed.

(** A run that SUCCEEDED with an empty dataset: the dataset is fetched
    and the reply has no [results]. *)
Example executeActor_empty_dataset :
  executeActor env_empty_dataset "moJRLRc85AitArpNN" None bearer (initial 0)
  = (Ret {| code := 200;
            payload := {| run := Some (sample_run SUCCEEDED);
                          results := None; ex_error := None |} |},
     {| clock := 0;
        log := [submit_request "apify_api_key" "moJRLRc85AitArpNN" None;
                dataset_request "apify_api_key" "moJRLRc85AitArpNN"
                  (sample_run SUCCEEDED)] |}).
Proof. by vm_compute. Qed.

(** C10.  Given credentials and an actor id, when the submit call
    returns a run whose status is not RUNNING, READY included, the loop
    body never runs: no status poll is requested, the reply carries that
    run, and the dataset is requested exactly when that status is
    SUCCEEDED. *)
Theorem executeActor_no_poll env actorId input header t0 r run0 :
  present (bearer_token header) = true →
  truthy_string actorId = true →
  submit_answer env = Responded r → ok r = true → json r = Some run0 →
  run_status run0 ≠ RUNNING →
  let key := default "" (bearer_token header) in
  let w :=
    {| clock := t0;
       log := submit_request key actorId input
              :: (if decide (run_status run0 = SUCCEEDED)
                  then [dataset_request key actorId run0] else []) |} in
  executeActor env actorId input header (initial t0)
  = (Ret (executed run0 (fetched_items env run0)), w)
  ∧ (poll_request key actorId run0 ∉ log w)
  ∧ (run_status run0 ≠ SUCCEEDED → fetched_items env run0 = []).
Proof.
  intros Hk Hid Hs Hok Hj Hst key w. split; [|split].
  - unfold executeActor. rewrite Hk, Hid. cbn [negb]. fold key.
    unfold try_catch, fetch, start_fetch, await, bind at 1 2.
    cbn [initial log clock app]. rewrite Hs. unfold ret at 1.
    rewrite Hok. cbn [negb]. unfold bind at 1, read_json. rewrite Hj.
    unfold ret at 1. unfold bind at 1, Date_now. cbn [clock].
    unfold bind at 1. rewrite poll_loop_not_running by done.
    unfold bind at 1. rewrite fetch_results_spec. reflexivity.
  - unfold w. cbn [log]. intros Hin.
    apply elem_of_cons in Hin as [Hin|Hin].
    + symmetry in Hin. by apply submit_not_get in Hin.
    + destruct (decide (run_status run0 = SUCCEEDED)).
      * apply list_elem_of_singleton in Hin. by apply poll_not_dataset in Hin.
      * by apply elem_of_nil in Hin.
  - intros Hns. unfold fetched_items. by rewrite decide_False.
Qed.

(** The run is created READY. *)
Lemma executeActor_no_poll_witness :
  let key := default "" (bearer_token bearer) in
  let w :=
    {| clock := 0;
       log := submit_request key "moJRLRc85AitArpNN" None
              :: (if decide (run_status (sample_run READY) = SUCCEEDED)
                  then [dataset_request key "moJRLRc85AitArpNN"
                          (sample_run READY)]
                  else []) |} in
  executeActor env_ready_start "moJRLRc85AitArpNN" None bearer (initial 0)
  = (Ret (executed (sample_run READY)
                   (fetched_items env_ready_start (sample_run READY))), w)
  ∧ (poll_request key "moJRLRc85AitArpNN" (sample_run READY) ∉ log w)
  ∧ (run_status (sample_run READY) ≠ SUCCEEDED →
     fetched_items env_ready_start (sample_run READY) = []).
Proof.
  apply (executeActor_no_poll env_ready_start "moJRLRc85AitArpNN" None
           bearer 0 (ok_response (sample_run READY)) (sample_run READY));
    [reflexivity .. | discriminate].
Defined.

(** C8 (as amended).  Given credentials, an actor id and a submitted
    run, the invocation makes some number [n] of polls that do not end
    it, each of them made while the run held is RUNNING.  A poll
    answered with a non-success status is among them and leaves the run
    held as it was.  After these polls the call replies with the run
    observed last, the loop being left on a status other than RUNNING or
    on the ceiling; it is ended with an error envelope only by a poll
    that throws. *)
Theorem executeActor_poll_failures env actorId input header t0 r run0 :
  present (bearer_token header) = true →
  truthy_string actorId = true →
  submit_answer env = Responded r → ok r = true → json r = Some run0 →
  let key := default "" (bearer_token header) in
  (∀ j resp, poll_answer env j = Responded resp → ok resp = false →
             poll_throws (poll_answer env j) = false
             ∧ observed env run0 (S j) = observed env run0 j)
  ∧ ∃ n w,
      (∀ j, (j < n)%nat →
            run_status (observed env run0 j) = RUNNING
            ∧ poll_throws (poll_answer env j) = false)
      ∧ ((executeActor env actorId input header (initial t0)
          = (Ret (executed (observed env run0 n)
                           (fetched_items env (observed env run0 n))), w)
          ∧ log w
            = submit_request key actorId input
              :: replicate n (poll_request key actorId run0)
              ++ (if decide (run_status (observed env run0 n) = SUCCEEDED)
                  then [dataset_request key actorId run0] else [])
          ∧ (run_status (observed env run0 n) ≠ RUNNING
             ∨ maxWaitTime ≤ clock w - t0))
         ∨ (executeActor env actorId input header (initial t0)
            = (Ret (not_executed 500 "Failed to execute actor"), w)
            ∧ poll_throws (poll_answer env n) = true)).
Proof.
  intros Hk Hid Hs Hok Hj key. split.
  - intros j resp Hp Hnok. cbn [observed]. rewrite Hp. cbn [poll_throws].
    by rewrite Hnok.
  - destruct (executeActor_submitted env actorId input header t0 r run0
                Hk Hid Hs Hok Hj)
      as (n & w & Hall & _ & [Hres|(Hrun & _ & _ & Ht)]).
    + exists n, w. split; [done|]. by left.
    + exists n, w. split; [done|]. by right.
Qed.

(** The first poll is answered [502 Bad Gateway]. *)
Lemma executeActor_poll_failures_witness :
  let key := default "" (bearer_token bearer) in
  (∀ j resp, poll_answer env_poll_refused j = Responded resp →
             ok resp = false →
             poll_throws (poll_answer env_poll_refused j) = false
             ∧ observed env_poll_refused (sample_run RUNNING) (S j)
               = observed env_poll_refused (sample_run RUNNING) j)
  ∧ ∃ n w,
      (∀ j, (j < n)%nat →
            run_status (observed env_poll_refused (sample_run RUNNING) j)
            = RUNNING
            ∧ poll_throws (poll_answer env_poll_refused j) = false)
      ∧ ((executeActor env_poll_refused "moJRLRc85AitArpNN" None bearer
            (initial 0)
          = (Ret (executed
                    (observed env_poll_refused (sample_run RUNNING) n)
                    (fetched_items env_poll_refused
                       (observed env_poll_refused (sample_run RUNNING) n))),
             w)
          ∧ log w
            = submit_request key "moJRLRc85AitArpNN" None
              :: replicate n (poll_request key "moJRLRc85AitArpNN"
                                (sample_run RUNNING))
              ++ (if decide (run_status (observed env_poll_refused
                                           (sample_run RUNNING) n)
                             = SUCCEEDED)
                  then [dataset_request key "moJRLRc85AitArpNN"
                          (sample_run RUNNING)]
                  else [])
          ∧ (run_status (observed env_poll_refused (sample_run RUNNING) n)
             ≠ RUNNING
             ∨ maxWaitTime ≤ clock w - 0))
         ∨ (executeActor env_poll_refused "moJRLRc85AitArpNN" None bearer
              (initial 0)
            = (Ret (not_executed 500 "Failed to execute actor"), w)
            ∧ poll_throws (poll_answer env_poll_refused n) = true)).
Proof.
  apply (executeActor_poll_failures env_poll_refused "moJRLRc85AitArpNN"
           None bearer 0 (ok_response (sample_run RUNNING))
           (sample_run RUNNING)); reflexivity.
Defined.

(** The refused poll is passed over: the next poll sees the run
    SUCCEEDED and the dataset is fetched. *)
Example executeActor_poll_refused :
  executeActor env_poll_refused "moJRLRc85AitArpNN" None bearer (initial 0)
  = (Ret {| code := 200;
            payload := {| run := Some (sample_run SUCCEEDED);
                          results := Some sample_items;
                          ex_error := None |} |},
     {| clock := 4306;
        log := [submit_request "apify_api_key" "moJRLRc85AitArpNN" None;
                poll_request "apify_api_key" "moJRLRc85AitArpNN"
                  (sample_run RUNNING);
                poll_request "apify_api_key" "moJRLRc85AitArpNN"
                  (sample_run RUNNING);
                dataset_request "apify_api_key" "moJRLRc85AitArpNN"
                  (sample_run RUNNING)] |}).
Proof. by vm_compute. Qed.

(** C8, as stated, fails: the fetch of the first poll rejects, and the
    call ends with the error envelope of the outer [catch]; the run that
    was submitted is not in the reply and no further poll is made. *)
Lemma executeActor_poll_rejected :
  executeActor env_poll_rejected "moJRLRc85AitArpNN" None bearer (initial 0)
  = (Ret {| code := 500;
            payload := {| run := None; results := None;
                          ex_error := Some "Failed to execute actor" |} |},
     {| clock := 2003;
        log := [submit_request "apify_api_key" "moJRLRc85AitArpNN" None;
                poll_request "apify_api_key" "moJRLRc85AitArpNN"
                  (sample_run RUNNING)] |}).
Proof. by vm_compute. Qed.

(** * Further properties of the handlers *)

(** ** [validateApiKey] *)

(** X1.  [validateApiKey] always replies.  The reply says [valid]
    exactly when a key was given and the platform answered the probe
    with a success status, whatever the body of that answer; it says
    [valid] exactly when its status is 200, and exactly when it carries
    no error.  One request is made when a key was given, none
    otherwise. *)
Theorem validateApiKey_verdict {T} (answer : Fetched T)
    (apiKey : option string) t0 :
  ∃ reply w,
    validateApiKey answer apiKey (initial t0) = (Ret reply, w)
    ∧ (valid (payload reply) = true
       ↔ present apiKey = true ∧ listing_failed answer = false)
    ∧ (valid (payload reply) = true ↔ code reply = 200)
    ∧ (valid (payload reply) = true ↔ va_error (payload reply) = None)
    ∧ log w = (if present apiKey then [get (default "" apiKey) "/acts"]
               else []).
Proof.
  unfold validateApiKey.
  destruct (present apiKey) eqn:Hk; cbn [negb].
  2: { eexists _, _. split; [reflexivity|]. cbn.
       repeat split; intros; try done; try discriminate;
      destruct_and?; discriminate. }
  unfold_monad. cbn [initial log clock app].
  destruct answer as [|r]; cbn [listing_failed].
  { eexists _, _. split; [reflexivity|]. cbn.
    repeat split; intros; try done; try discriminate;
      destruct_and?; discriminate. }
  destruct (ok r) eqn:Hok.
  - eexists _, _. split; [reflexivity|]. cbn. repeat split; done.
  - eexists _, _. split; [reflexivity|]. cbn.
    repeat split; intros; try done; try discriminate;
      destruct_and?; discriminate.
Qed.

(** ** [listPublicActors] *)

Lemma start_lookups_run lookup key ids : ∀ w,
  start_lookups lookup key ids w
  = (Ret (lookup <$> ids),
     {| clock := clock w;
        log := log w ++ (lookup_request key <$> ids) |}).
Proof.
  induction ids as [|i ids IH]; intros w; cbn [start_lookups fmap list_fmap].
  - unfold ret. rewrite app_nil_r. by destruct w.
  - unfold bind at 1, start_fetch at 1. unfold bind at 1. rewrite IH.
    unfold ret. cbn [clock log]. rewrite <- app_assoc. reflexivity.
Qed.

Lemma finish_lookups_run ps : ∀ w,
  finish_lookups ps w = (Ret (looked_up <$> ps), w).
Proof.
  induction ps as [|p ps IH]; intros w; cbn [finish_lookups fmap list_fmap].
  - reflexivity.
  - assert (finish_lookup p w = (Ret (looked_up p), w)) as Hp.
    { unfold finish_lookup. unfold_monad. destruct p as [|r]; [done|].
      cbn. destruct (ok r); [destruct (json r)|]; reflexivity. }
    unfold bind at 1. rewrite Hp. unfold bind at 1. rewrite IH. reflexivity.
Qed.

Lemma omap_length_le {A B} (f : A → option B) (l : list A) :
  (length (omap f l) ≤ length l)%nat.
Proof.
  induction l as [|x l IH]; cbn; [done|]. destruct (f x); cbn; lia.
Qed.

(** X2.  Given credentials, [listPublicActors] never replies with an
    error, whatever the lookups do.  It requests all six public actors,
    in their fixed order and without skipping any, and replies with the
    actors of the lookups that succeeded, in that order; so the reply
    has at most six actors. *)
Theorem listPublicActors_lookups lookup header t0 :
  present (bearer_token header) = true →
  let key := default "" (bearer_token header) in
  listPublicActors lookup header (initial t0)
  = (Ret (success_reply
            (omap (fun actorId => looked_up (lookup actorId))
                  popularActorIds)),
     {| clock := t0; log := lookup_request key <$> popularActorIds |})
  ∧ (length (omap (fun actorId => looked_up (lookup actorId))
                  popularActorIds) ≤ 6)%nat.
Proof.
  intros Hk key. split.
  - unfold listPublicActors. rewrite Hk. cbn [negb]. fold key.
    unfold try_catch, bind at 1. rewrite start_lookups_run.
    unfold bind at 1. rewrite finish_lookups_run.
    reflexivity.
  - apply (omap_length_le _ popularActorIds).
Qed.

(** Two lookups succeed, one rejects, three are refused. *)
Lemma listPublicActors_lookups_witness :
  let key := default "" (bearer_token bearer) in
  listPublicActors public_lookup_sample bearer (initial 0)
  = (Ret (success_reply
            (omap (fun actorId => looked_up (public_lookup_sample actorId))
                  popularActorIds)),
     {| clock := 0; log := lookup_request key <$> popularActorIds |})
  ∧ (length (omap (fun actorId => looked_up (public_lookup_sample actorId))
                  popularActorIds) ≤ 6)%nat.
Proof.
  apply (listPublicActors_lookups public_lookup_sample bearer 0).
  reflexivity.
Defined.

Example listPublicActors_sample :
  fst (listPublicActors public_lookup_sample bearer (initial 0))
  = Ret (success_reply [sample_actor "moJRLRc85AitArpNN";
                        sample_actor "nFJndFXA5zjCTuudP"]).
Proof. by vm_compute. Qed.

(** ** [listActors]: requests and provenance *)

(** The curated loop in full: what it appends and what it requests. *)
Lemma add_populars_trace env key ids : ∀ acc w,
  ∃ extra reqs,
    add_populars env key ids acc w
    = (Ret (acc ++ extra),
       {| clock := clock w; log := log w ++ reqs |})
    ∧ reqs `sublist_of` (lookup_request key <$> ids)
    ∧ extra `sublist_of` omap (fun c => looked_up (actor_detail env c)) ids
    ∧ (length extra ≤ length reqs)%nat.
Proof.
  induction ids as [|c ids IH]; intros acc w; cbn [add_populars].
  - exists [], []. rewrite !app_nil_r. unfold ret. destruct w. done.
  - destruct (add_popular_spec env key c acc w) as (e1 & Hrun & Hshape & _).
    unfold bind at 1. rewrite Hrun.
    destruct (IH (acc ++ e1)
                {| clock := clock w;
                   log := log w ++ (if decide (c ∈ id <$> acc) then []
                                    else [get key ("/acts/" +:+ c)]) |})
      as (e2 & reqs & Hrest & Hreqs & Hextra & Hlen).
    rewrite Hrest. cbn [clock log].
    exists (e1 ++ e2),
      ((if decide (c ∈ id <$> acc) then []
        else [get key ("/acts/" +:+ c)]) ++ reqs).
    rewrite !app_assoc. split; [done|].
    cbn [fmap list_fmap omap list_omap].
    destruct Hshape as [->|(Hnin & r & d & Hd & Hok & Hj & ->)].
    + cbn [app]. split; [|split].
      * destruct (decide (c ∈ id <$> acc)); cbn [app].
        -- by apply sublist_cons.
        -- by apply sublist_skip.
      * destruct (looked_up (actor_detail env c)); [by apply sublist_cons|done].
      * rewrite length_app. lia.
    + rewrite decide_False by done. cbn [app]. split; [|split].
      * by apply sublist_skip.
      * unfold looked_up at 1. rewrite Hd, Hok, Hj. cbn.
        by apply sublist_skip.
      * cbn [length]. lia.
Qed.

(** Every call of [listActors], with its requests. *)
Lemma listActors_trace env header t0 :
  let key := default "" (bearer_token header) in
  ∃ reply w reqs extra,
    listActors env header (initial t0) = (Ret reply, w)
    ∧ log w
      = (if present (bearer_token header)
         then [get key "/acts?my=true&limit=100"; get key "/acts?limit=100"]
         else []) ++ reqs
    ∧ reqs `sublist_of` (lookup_request key <$> popularActors)
    ∧ ((∃ c msg, reply = failure_reply c msg ∧ reqs = [])
       ∨ (present (bearer_token header) = true
          ∧ reply = success_reply (listing_union env ++ extra)
          ∧ extra `sublist_of`
              omap (fun c => looked_up (actor_detail env c)) popularActors
          ∧ (length extra ≤ length reqs)%nat)).
Proof.
  intros key.
  assert (∀ c msg,
            present (bearer_token header) = true →
            listActors env header (initial t0)
            = (Ret (failure_reply c msg), listings_requested key t0) →
            ∃ reply w reqs extra,
              listActors env header (initial t0) = (Ret reply, w)
              ∧ log w
                = (if present (bearer_token header)
                   then [get key "/acts?my=true&limit=100";
                         get key "/acts?limit=100"]
                   else []) ++ reqs
              ∧ reqs `sublist_of` (lookup_request key <$> popularActors)
              ∧ ((∃ c msg, reply = failure_reply c msg ∧ reqs = [])
                 ∨ (present (bearer_token header) = true
                    ∧ reply = success_reply (listing_union env ++ extra)
                    ∧ extra `sublist_of`
                        omap (fun c => looked_up (actor_detail env c))
                             popularActors
                    ∧ (length extra ≤ length reqs)%nat))) as Herr.
  { intros c msg Hk Hrun. exists (failure_reply c msg), (listings_requested key t0), [], [].
    split; [done|]. rewrite Hk. split; [done|].
    split; [apply sublist_nil_l|]. left. eauto. }
  assert (∀ r1 r2,
            present (bearer_token header) = true →
            owned_listing env = Responded r1 →
            accessible_listing env = Responded r2 →
            ok r1 = true ∨ ok r2 = true →
            (ok r1 = true → is_Some (json r1)) →
            (ok r2 = true → is_Some (json r2)) →
            ∃ reply w reqs extra,
              listActors env header (initial t0) = (Ret reply, w)
              ∧ log w
                = (if present (bearer_token header)
                   then [get key "/acts?my=true&limit=100";
                         get key "/acts?limit=100"]
                   else []) ++ reqs
              ∧ reqs `sublist_of` (lookup_request key <$> popularActors)
              ∧ ((∃ c msg, reply = failure_reply c msg ∧ reqs = [])
                 ∨ (present (bearer_token header) = true
                    ∧ reply = success_reply (listing_union env ++ extra)
                    ∧ extra `sublist_of`
                        omap (fun c => looked_up (actor_detail env c))
                             popularActors
                    ∧ (length extra ≤ length reqs)%nat))) as Hok.
  { intros r1 r2 Hk H1 H2 Hany Hj1 Hj2.
    destruct (listActors_merged env header t0 r1 r2 Hk H1 H2 Hany Hj1 Hj2)
      as (extra & w & (Hcur & _) & Hrun).
    destruct (add_populars_trace env key popularActors (listing_union env)
                (listings_requested key t0))
      as (extra' & reqs & Hrun' & Hreqs & Hextra & Hlen).
    fold key in Hcur. rewrite Hcur in Hrun'.
    injection Hrun' as Hl Hw. apply app_inv_head in Hl. subst extra' w.
    eexists _, _, reqs, extra. split; [exact Hrun|].
    rewrite Hk. cbn [log listings_requested]. split; [done|].
    split; [done|]. right. done. }
  destruct (present (bearer_token header)) eqn:Hk.
  2: { exists (failure_reply 401 "API key is required"), (initial t0), [], [].
       split; [by apply listActors_no_key|]. split; [done|].
       split; [apply sublist_nil_l|]. left. eauto. }
  destruct (owned_listing env) as [|r1] eqn:H1.
  { eapply Herr; [done|]. apply listActors_rejected; auto. }
  destruct (accessible_listing env) as [|r2] eqn:H2.
  { eapply Herr; [done|]. apply listActors_rejected; auto. }
  destruct (ok r1) eqn:Hok1; [destruct (json r1) as [o|] eqn:Hj1|].
  - destruct (ok r2) eqn:Hok2; [destruct (json r2) as [a|] eqn:Hj2|].
    + eapply Hok; eauto.
    + eapply Herr; [done|]. eapply listActors_unreadable; eauto.
    + eapply Hok; eauto. congruence.
  - eapply Herr; [done|]. eapply listActors_unreadable; eauto.
  - destruct (ok r2) eqn:Hok2; [destruct (json r2) as [a|] eqn:Hj2|].
    + eapply Hok; eauto. congruence.
    + eapply Herr; [done|]. eapply listActors_unreadable; eauto.
    + eapply Herr; [done|]. eapply listActors_both_failed; eauto.
Qed.

(** ** [getActorSchema]: what is requested and what is returned *)

(** Each step, started without a schema: its value and its request. *)
Lemma steps_unset rt env key actorId d w :
  from_embedded_version d None w = (Ret (embedded_schema d), w)
  ∧ from_versions_endpoint env key actorId None w
    = (Ret (versions_schema env),
       requested [versions_request key actorId] w)
  ∧ from_tagged_build env key actorId d None w
    = (Ret (build_schema env d),
       requested (tagged_build_requests key actorId d) w)
  ∧ from_builds_endpoint env key actorId None w
    = (Ret (builds_schema env), requested [builds_request key actorId] w)
  ∧ from_example rt d None w = (Ret (example_schema rt d), w)
  ∧ from_predefined actorId None w = (Ret (predefined_for actorId), w).
Proof.
  assert (requested [] w = w) as Hnil
    by (unfold requested; rewrite app_nil_r; by destruct w).
  repeat split.
  - unfold from_embedded_version, embedded_schema.
    destruct (versions d) as [[|v ?]|]; [| destruct (inputSchema v) |];
      reflexivity.
  - unfold from_versions_endpoint, versions_schema. cbn [unset].
    unfold_monad. destruct (versions_answer env) as [|r]; [reflexivity|].
    destruct (ok r); [|reflexivity].
    destruct (json r) as [b|]; [|reflexivity].
    destruct (versions_items b) as [[|? ?]|]; reflexivity.
  - unfold from_tagged_build, build_schema, tagged_build_requests.
    destruct (taggedBuilds d) as [[b|]|]; [|by rewrite Hnil ..].
    cbn [unset]. unfold_monad.
    destruct (build_answer env (buildId b)) as [|r]; [reflexivity|].
    destruct (ok r); [|reflexivity].
    destruct (json r); reflexivity.
  - unfold from_builds_endpoint, builds_schema. cbn [unset].
    unfold_monad. destruct (builds_answer env) as [|r]; [reflexivity|].
    destruct (ok r); [|reflexivity].
    destruct (json r) as [b|]; [|reflexivity].
    destruct (builds_items b) as [[|? ?]|]; reflexivity.
  - unfold from_example, example_schema.
    destruct (exampleRunInput d); reflexivity.
  - unfold from_predefined, predefined_for. cbn [unset andb].
    destruct (bool_decide (actorId = "nwua9Gu5YrADL7ZDj")); reflexivity.
Qed.

(** The chain of steps, as a value and a list of requests. *)
Lemma resolve_run rt env key actorId d w :
  resolve rt env key actorId d w
  = (Ret (schema_reply (resolved rt env actorId d)),
     requested (probe_requests env key actorId d) w).
Proof.
  assert (requested [] w = w) as Hnil
    by (unfold requested; rewrite app_nil_r; by destruct w).
  unfold resolve, resolved, probe_requests.
  destruct (steps_unset rt env key actorId d w) as (E1 & _).
  unfold bind at 1. rewrite E1.
  destruct (embedded_schema d) as [s|].
  { rewrite Hnil. destruct (later_steps_keep rt env key actorId d s)
      as (E2 & E3 & E4 & E5 & E6 & E7).
    repeat (first [rewrite E2 | rewrite E3 | rewrite E4
                  | rewrite E5 | rewrite E6 | rewrite E7];
            rewrite bind_ret; cbn beta).
    reflexivity. }
  destruct (steps_unset rt env key actorId d w) as (_ & E2 & _).
  unfold bind at 1. rewrite E2.
  destruct (versions_schema env) as [s|].
  { destruct (later_steps_keep rt env key actorId d s)
      as (_ & E3 & E4 & E5 & E6 & E7).
    repeat (first [rewrite E3 | rewrite E4
                  | rewrite E5 | rewrite E6 | rewrite E7];
            rewrite bind_ret; cbn beta).
    reflexivity. }
  destruct (steps_unset rt env key actorId d
              (requested [versions_request key actorId] w))
    as (_ & _ & E3 & _).
  unfold bind at 1. rewrite E3.
  assert (∀ rs, requested rs (requested [versions_request key actorId] w)
                = requested (versions_request key actorId :: rs) w) as Hreq.
  { intros rs. unfold requested. cbn [clock log].
    by rewrite <- app_assoc. }
  assert (∀ rs rs', requested rs' (requested rs w) = requested (rs ++ rs') w)
    as Hreq2.
  { intros rs rs'. unfold requested. cbn [clock log].
    by rewrite <- app_assoc. }
  destruct (build_schema env d) as [s|].
  { destruct (later_steps_keep rt env key actorId d s)
      as (_ & _ & E4 & E5 & E6 & E7).
    repeat (first [rewrite E4 | rewrite E5 | rewrite E6 | rewrite E7];
            rewrite bind_ret; cbn beta).
    rewrite Hreq, app_nil_r. reflexivity. }
  rewrite Hreq.
  destruct (steps_unset rt env key actorId d
              (requested (versions_request key actorId
                          :: tagged_build_requests key actorId d) w))
    as (_ & _ & _ & E4 & _).
  unfold bind at 1. rewrite E4. rewrite Hreq2. cbn [app].
  destruct (builds_schema env) as [s|].
  { destruct (later_steps_keep rt env key actorId d s)
      as (_ & _ & _ & E5 & E6 & E7).
    repeat (first [rewrite E5 | rewrite E6 | rewrite E7];
            rewrite bind_ret; cbn beta).
    reflexivity. }
  match goal with
  | |- context [requested ?rs w] =>
      destruct (steps_unset rt env key actorId d (requested rs w))
        as (_ & _ & _ & _ & E5 & E6)
  end.
  unfold bind at 1. rewrite E5.
  destruct (example_schema rt d) as [s|].
  { destruct (later_steps_keep rt env key actorId d s)
      as (_ & _ & _ & _ & E6' & E7).
    repeat (first [rewrite E6' | rewrite E7];
            rewrite bind_ret; cbn beta).
    reflexivity. }
  unfold bind at 1. rewrite E6.
  destruct (predefined_for actorId) as [s|].
  { destruct (later_steps_keep rt env key actorId d s)
      as (_ & _ & _ & _ & _ & E7).
    rewrite E7, bind_ret. reflexivity. }
  reflexivity.
Qed.

(** Every call of [getActorSchema], case by case. *)
Lemma getActorSchema_run rt env actorId header t0 :
  let key := default "" (bearer_token header) in
  let w1 := {| clock := t0; log := [lookup_request key actorId] |} in
  getActorSchema rt env actorId header (initial t0)
  = if negb (present (bearer_token header)) then
      (Ret (schema_failure 401 "API key is required"), initial t0)
    else if negb (truthy_string actorId) then
      (Ret (schema_failure 400 "Actor ID is required"), initial t0)
    else
      match detail_answer env with
      | Rejected =>
          (Ret (schema_failure 500 "Failed to fetch actor schema from Apify"),
           w1)
      | Responded r =>
          if ok r then
            match json r with
            | Some d =>
                (Ret (schema_reply (resolved rt env actorId d)),
                 requested (probe_requests env key actorId d) w1)
            | None =>
                (Ret (schema_failure 500
                        "Failed to fetch actor schema from Apify"), w1)
            end
          else if text_readable r then
            (Ret (schema_failure (status r)
                    ("Failed to fetch actor details: "
                     +:+ pretty (status r) +:+ " " +:+ statusText r)), w1)
          else
            (Ret (schema_failure 500
                    "Failed to fetch actor schema from Apify"), w1)
      end.
Proof.
  intros key w1. unfold getActorSchema.
  destruct (present (bearer_token header)); cbn [negb]; [|reflexivity].
  destruct (truthy_string actorId); cbn [negb]; [|reflexivity].
  fold key.
  unfold try_catch, fetch, start_fetch, await, bind at 1 2.
  cbn [initial log clock app].
  destruct (detail_answer env) as [|r]; [reflexivity|].
  unfold ret at 1. destruct (ok r); cbn [negb].
  2: { unfold bind, read_text. by destruct (text_readable r). }
  unfold bind at 1, read_json. destruct (json r) as [d|]; [|reflexivity].
  unfold ret at 1. fold (lookup_request key actorId). fold w1.
  by rewrite resolve_run.
Qed.

Lemma probe_requests_sublist env key actorId d :
  probe_requests env key actorId d
  `sublist_of` (versions_request key actorId
                :: tagged_build_requests key actorId d
                ++ [builds_request key actorId]).
Proof.
  unfold probe_requests.
  destruct (embedded_schema d); [apply sublist_nil_l|].
  apply sublist_skip.
  destruct (versions_schema env); [apply sublist_nil_l|].
  apply sublist_app; [done|].
  destruct (build_schema env d); [apply sublist_nil_l | done].
Qed.

Lemma tagged_build_requests_length key actorId d :
  (length (tagged_build_requests key actorId d) ≤ 1)%nat.
Proof.
  unfold tagged_build_requests.
  destruct (taggedBuilds d) as [[?|]|]; cbn; lia.
Qed.

Lemma sublist_elem {A} (x : A) (l1 l2 : list A) :
  l1 `sublist_of` l2 → x ∈ l1 → x ∈ l2.
Proof.
  induction 1 as [|y l1 l2 _ IH|y l1 l2 _ IH]; intros Hx; [done| |].
  - apply elem_of_cons in Hx as [->|Hx]; [apply list_elem_of_here|].
    by apply list_elem_of_further, IH.
  - by apply list_elem_of_further, IH.
Qed.

(** X3.  [getActorSchema] makes at most four requests, all of them with
    the caller's credential: none when the credential or the actor id is
    missing, the detail request alone when the detail cannot be had,
    and otherwise the detail request followed by the requests of the
    probes in their fixed order (versions, tagged build, builds), each
    made only while no earlier source has given a schema. *)
Theorem getActorSchema_requests rt env actorId header t0 :
  let key := default "" (bearer_token header) in
  ∃ reply w,
    getActorSchema rt env actorId header (initial t0) = (Ret reply, w)
    ∧ (length (log w) ≤ 4)%nat
    ∧ all_authorized key w
    ∧ (present (bearer_token header) = false
       ∨ truthy_string actorId = false → log w = [])
    ∧ (present (bearer_token header) = true →
       truthy_string actorId = true →
       lookup_failed (detail_answer env) = true →
       log w = [lookup_request key actorId])
    ∧ (∀ r d, present (bearer_token header) = true →
              truthy_string actorId = true →
              detail_answer env = Responded r → ok r = true →
              json r = Some d →
              log w
              = lookup_request key actorId :: probe_requests env key actorId d
              ∧ probe_requests env key actorId d
                `sublist_of` (versions_request key actorId
                              :: tagged_build_requests key actorId d
                              ++ [builds_request key actorId])
              ∧ (versions_request key actorId ∈ log w
                 ↔ embedded_schema d = None)).
Proof.
  intros key. rewrite getActorSchema_run. fold key.
  assert (∀ w, log w = [] ∨ log w = [lookup_request key actorId] →
               (length (log w) ≤ 4)%nat ∧ all_authorized key w) as Hsmall.
  { intros w [Hw|Hw]; unfold all_authorized; rewrite Hw; cbn; split;
      try lia; intros rq Hrq.
    - by apply elem_of_nil in Hrq.
    - apply list_elem_of_singleton in Hrq. by subst rq. }
  destruct (present (bearer_token header)) eqn:Hk; cbn [negb].
  2: { eexists _, _. split; [reflexivity|].
       destruct (Hsmall (initial t0)) as [? ?]; [by left|].
       split; [done|]. split; [done|]. split; [done|].
       split; [intros [=] | intros ? ? [=]]. }
  destruct (truthy_string actorId) eqn:Hid; cbn [negb].
  2: { eexists _, _. split; [reflexivity|].
       destruct (Hsmall (initial t0)) as [? ?]; [by left|].
       split; [done|]. split; [done|]. split; [done|].
       split; [intros _ [=] | intros ? ? _ [=]]. }
  destruct (detail_answer env) as [|r] eqn:Hd.
  { eexists _, _. split; [reflexivity|].
    destruct (Hsmall {| clock := t0; log := [lookup_request key actorId] |})
      as [? ?]; [by right|].
    split; [done|]. split; [done|]. split; [intros [[=]|[=]]|].
    split; [done | intros ? ? _ _ [=]]. }
  destruct (ok r) eqn:Hok; [destruct (json r) as [d|] eqn:Hj|].
  - eexists _, _. split; [reflexivity|]. cbn [log requested app].
    pose proof (probe_requests_sublist env key actorId d) as Hsub.
    split; [|split; [|split; [|split]]].
    + cbn [length]. apply sublist_length in Hsub.
      cbn [length] in Hsub. rewrite length_app in Hsub. cbn [length] in Hsub.
      pose proof (tagged_build_requests_length key actorId d). lia.
    + intros rq Hrq. cbn [log requested app] in Hrq.
      apply elem_of_cons in Hrq as [->|Hrq]; [done|].
      apply (sublist_elem _ _ _ Hsub) in Hrq.
      apply elem_of_cons in Hrq as [->|Hrq]; [done|].
      apply elem_of_app in Hrq as [Hrq|Hrq].
      * unfold tagged_build_requests in Hrq.
        destruct (taggedBuilds d) as [[b|]|];
          try (by apply elem_of_nil in Hrq).
        apply list_elem_of_singleton in Hrq. by subst rq.
      * apply list_elem_of_singleton in Hrq. by subst rq.
    + intros [[=]|[=]].
    + intros _ _ Hf. cbn in Hf. rewrite Hok, Hj in Hf. discriminate.
    + intros r' d' _ _ [= <-] _ Hj'. rewrite Hj in Hj'. injection Hj' as <-.
      split; [done|]. split; [done|]. split.
      * intros Hin. apply elem_of_cons in Hin as [Hin|Hin].
        { exfalso. unfold versions_request, lookup_request, get in Hin.
          injection Hin as Hu. repeat apply (inj (String.app _)) in Hu.
          by apply append_ne in Hu. }
        unfold probe_requests in Hin.
        destruct (embedded_schema d); [by apply elem_of_nil in Hin | done].
      * intros He. unfold probe_requests. rewrite He.
        apply list_elem_of_further, list_elem_of_here.
  - eexists _, _. split; [reflexivity|].
    destruct (Hsmall {| clock := t0; log := [lookup_request key actorId] |})
      as [? ?]; [by right|].
    split; [done|]. split; [done|]. split; [intros [[=]|[=]]|].
    split; [done|]. intros r' d' _ _ [= <-] _ Hj'. congruence.
  - destruct (Hsmall {| clock := t0; log := [lookup_request key actorId] |})
      as [? ?]; [by right|].
    destruct (text_readable r).
    all: eexists _, _; (split; [reflexivity|]).
    all: split; [done|]; split; [done|]; split; [intros [[=]|[=]]|].
    all: split; [done|]; intros r' d' _ _ [= <-] Hok'; congruence.
Qed.

(** X4.  [getActorSchema] always replies, and its envelope is
    discriminated: the reply carries a schema exactly when it carries no
    error, exactly when its status is 200, and exactly when the
    credential and the actor id were given and the actor detail was
    fetched successfully.  When the detail request is answered with a
    non-success status, the handler reads the body of the answer as
    text: the reply has the status of the answer when that read
    settles, and status 500 when it rejects. *)
Theorem getActorSchema_envelope rt env actorId header t0 :
  ∃ reply w,
    getActorSchema rt env actorId header (initial t0) = (Ret reply, w)
    ∧ (is_Some (schema (payload reply)) ↔ gs_error (payload reply) = None)
    ∧ (is_Some (schema (payload reply)) ↔ code reply = 200)
    ∧ (is_Some (schema (payload reply))
       ↔ present (bearer_token header) = true
         ∧ truthy_string actorId = true
         ∧ lookup_failed (detail_answer env) = false)
    ∧ (∀ r, present (bearer_token header) = true →
            truthy_string actorId = true →
            detail_answer env = Responded r → ok r = false →
            reply
            = if text_readable r then
                schema_failure (status r)
                  ("Failed to fetch actor details: "
                   +:+ pretty (status r) +:+ " " +:+ statusText r)
              else
                schema_failure 500 "Failed to fetch actor schema from Apify").
Proof.
  rewrite getActorSchema_run.
  assert (∀ c msg (w : World),
            c ≠ 200 →
            present (bearer_token header) = false
            ∨ truthy_string actorId = false
            ∨ lookup_failed (detail_answer env) = true →
            (∀ r, present (bearer_token header) = true →
                  truthy_string actorId = true →
                  detail_answer env = Responded r → ok r = false →
                  schema_failure c msg
                  = if text_readable r then
                      schema_failure (status r)
                        ("Failed to fetch actor details: "
                         +:+ pretty (status r) +:+ " " +:+ statusText r)
                    else
                      schema_failure 500
                        "Failed to fetch actor schema from Apify") →
            ∃ reply w',
              (Ret (schema_failure c msg), w) = (Ret reply, w')
              ∧ (is_Some (schema (payload reply))
                 ↔ gs_error (payload reply) = None)
              ∧ (is_Some (schema (payload reply)) ↔ code reply = 200)
              ∧ (is_Some (schema (payload reply))
                 ↔ present (bearer_token header) = true
                   ∧ truthy_string actorId = true
                   ∧ lookup_failed (detail_answer env) = false)
              ∧ (∀ r, present (bearer_token header) = true →
                      truthy_string actorId = true →
                      detail_answer env = Responded r → ok r = false →
                      reply
                      = if text_readable r then
                          schema_failure (status r)
                            ("Failed to fetch actor details: "
                             +:+ pretty (status r) +:+ " " +:+ statusText r)
                        else
                          schema_failure 500
                            "Failed to fetch actor schema from Apify"))
    as Herr.
  { intros c msg w Hc Hwhy Hst. eexists _, _. split; [reflexivity|].
    cbn [schema_failure payload code schema gs_error].
    split; [split; [by intros [? [=]] | done]|].
    split; [split; [by intros [? [=]] | done]|].
    split; [|exact Hst]. split; [by intros [? [=]]|].
    intros (? & ? & ?). destruct Hwhy as [?|[?|?]]; congruence. }
  destruct (present (bearer_token header)) eqn:Hk; cbn [negb].
  2: { apply Herr; [done | by left |]. intros ? [=]. }
  destruct (truthy_string actorId) eqn:Hid; cbn [negb].
  2: { apply Herr; [done | by right; left |]. intros ? _ [=]. }
  destruct (detail_answer env) as [|r] eqn:Hd.
  { apply Herr; [done | by right; right |]. intros ? _ _ [=]. }
  destruct (ok r) eqn:Hok; [destruct (json r) as [d|] eqn:Hj|].
  - eexists _, _. split; [reflexivity|]. cbn. rewrite Hok, Hj. cbn.
    split; [split; eauto|]. split; [split; eauto|].
    split; [split; eauto|]. intros r' _ _ [= <-] Hok'. congruence.
  - apply Herr; [done | right; right; cbn; by rewrite Hok, Hj |].
    intros r' _ _ [= <-] Hok'. congruence.
  - destruct (text_readable r) eqn:Ht; apply Herr.
    + unfold ok in Hok. intros Heq. rewrite Heq in Hok. discriminate.
    + right; right. cbn. by rewrite Hok.
    + intros r' _ _ [= <-] _. by rewrite Ht.
    + done.
    + right; right. cbn. by rewrite Hok.
    + intros r' _ _ [= <-] _. by rewrite Ht.
Qed.

(** When the detail answers, the reply is the first schema on offer. *)
Lemma getActorSchema_resolved rt env actorId header t0 r d :
  present (bearer_token header) = true →
  truthy_string actorId = true →
  detail_answer env = Responded r → ok r = true → json r = Some d →
  fst (getActorSchema rt env actorId header (initial t0))
  = Ret (schema_reply (resolved rt env actorId d)).
Proof.
  intros Hk Hid Hd Hok Hj. rewrite getActorSchema_run.
  by rewrite Hk, Hid, Hd, Hok, Hj.
Qed.

(** X5.  When the actor detail is fetched and none of the version,
    build and example sources has a schema, the actor with the id of the
    predefined schema gets that schema verbatim, and every other actor
    gets the schema built from its metadata. *)
Theorem getActorSchema_predefined rt env actorId header t0 r d :
  present (bearer_token header) = true →
  truthy_string actorId = true →
  detail_answer env = Responded r → ok r = true → json r = Some d →
  embedded_schema d = None → versions_schema env = None →
  build_schema env d = None → builds_schema env = None →
  example_schema rt d = None →
  fst (getActorSchema rt env actorId header (initial t0))
  = Ret (schema_reply
           (if decide (actorId = "nwua9Gu5YrADL7ZDj")
            then predefined_schema else fallback_schema rt d)).
Proof.
  intros Hk Hid Hd Hok Hj H1 H2 H3 H4 H5.
  rewrite (getActorSchema_resolved rt env actorId header t0 r d) by done.
  unfold resolved. rewrite H1, H2, H3, H4, H5. cbn [or_next].
  unfold predefined_for.
  destruct (decide (actorId = "nwua9Gu5YrADL7ZDj")) as [->|Hne].
  - reflexivity.
  - by rewrite bool_decide_eq_false_2.
Qed.

(** No source answers for the actor of the predefined schema. *)
Lemma getActorSchema_predefined_witness :
  fst (getActorSchema sample_runtime env_no_schema "nwua9Gu5YrADL7ZDj" bearer
         (initial 0))
  = Ret (schema_reply
           (if decide ("nwua9Gu5YrADL7ZDj" = "nwua9Gu5YrADL7ZDj")
            then predefined_schema
            else fallback_schema sample_runtime
                   (sample_detail "nwua9Gu5YrADL7ZDj"))).
Proof.
  apply (getActorSchema_predefined sample_runtime env_no_schema
           "nwua9Gu5YrADL7ZDj" bearer 0
           (ok_response (sample_detail "nwua9Gu5YrADL7ZDj"))
           (sample_detail "nwua9Gu5YrADL7ZDj")); reflexivity.
Defined.

(** X6.  When no version or build source has a schema and the actor's
    example run input parses to a value without entries ([null], a
    number, a boolean, an empty object), the reply carries a schema with
    an empty property map, and neither the predefined schema nor the
    metadata fallback is used. *)
Theorem getActorSchema_empty_example rt env actorId header t0 r d body v :
  present (bearer_token header) = true →
  truthy_string actorId = true →
  detail_answer env = Responded r → ok r = true → json r = Some d →
  embedded_schema d = None → versions_schema env = None →
  build_schema env d = None → builds_schema env = None →
  exampleRunInput d = Some body → truthy_string body = true →
  JSON_parse rt body = Some v →
  Object_entries v = None ∨ Object_entries v = Some [] →
  ∃ s,
    fst (getActorSchema rt env actorId header (initial t0))
    = Ret (schema_reply s)
    ∧ s_properties s = []
    ∧ s_title s = or_else (title (actor d)) "Actor Input"
    ∧ s_required s = None.
Proof.
  intros Hk Hid Hd Hok Hj H1 H2 H3 H4 Hex Hbody Hparse Hentries.
  exists (example_shell d).
  rewrite (getActorSchema_resolved rt env actorId header t0 r d) by done.
  unfold resolved. rewrite H1, H2, H3, H4. cbn [or_next].
  unfold example_schema. rewrite Hex.
  unfold synthesize_from_example. rewrite Hbody, Hparse.
  destruct Hentries as [-> | ->]; cbn [or_next default]; done.
Qed.

(** The recorded example of the actor of the predefined schema is
    [null]. *)
Lemma getActorSchema_empty_example_witness :
  ∃ s,
    fst (getActorSchema sample_runtime env_null_example "nwua9Gu5YrADL7ZDj"
           bearer (initial 0))
    = Ret (schema_reply s)
    ∧ s_properties s = []
    ∧ s_title s = or_else (title (actor detail_null_example)) "Actor Input"
    ∧ s_required s = None.
Proof.
  apply (getActorSchema_empty_example sample_runtime env_null_example
           "nwua9Gu5YrADL7ZDj" bearer 0 (ok_response detail_null_example)
           detail_null_example "null" JNull); try reflexivity.
  by left.
Defined.

(** ** The synthesized schemas *)

Lemma or_else_nonempty a b : b ≠ "" → or_else a b ≠ "".
Proof.
  intros Hb. unfold or_else. destruct a; cbn; [done|discriminate].
Qed.

(** X7.  The schema built from the actor's metadata is never empty: it
    is an object schema with a non-empty title and an empty [required]
    list; its properties are, in this order and without repetition,
    [keywords] and [location] exactly when the actor is in the JOBS
    category, then the free-text [input] field, then the read-only
    [_pricing_info] exactly when the actor has pricing information. *)
Theorem fallback_schema_shape rt d :
  let s := fallback_schema rt d in
  s_type s = "object"
  ∧ s_required s = Some []
  ∧ s_title s ≠ ""
  ∧ fst <$> s_properties s
    = (if has_jobs d then ["keywords"; "location"] else [])
      ++ ["input"]
      ++ (if isPaidActor d then ["_pricing_info"] else [])
  ∧ NoDup (fst <$> s_properties s)
  ∧ (∃ p, obj_get "input" (s_properties s) = Some p
          ∧ property_type p = Some (JStr "string")
          ∧ property_format p = Some (JStr "textarea"))
  ∧ (isPaidActor d = true →
     ∃ entries, obj_get "_pricing_info" (s_properties s) = Some (JObj entries)
                ∧ obj_get "readOnly" entries = Some (JBool true)).
Proof.
  cbn zeta. split; [done|]. split; [done|].
  split; [by apply or_else_nonempty|].
  unfold fallback_schema, has_jobs, jobs_fields. cbn [s_properties].
  destruct (categories d) as [cs|];
    [destruct (bool_decide ("JOBS" ∈ cs))|];
    destruct (isPaidActor d); cbn.
  all: split; [reflexivity|].
  all: split; [compute_done|].
  all: split; [eexists; split; [reflexivity|]; split; reflexivity|].
  all: intros; try discriminate; eexists; split; reflexivity.
Qed.

Example fallback_schema_paid_jobs :
  fst <$> s_properties (fallback_schema sample_runtime detail_paid_jobs)
  = ["keywords"; "location"; "input"; "_pricing_info"].
Proof. reflexivity. Qed.

Lemma obj_set_fresh key v entries :
  key ∉ (fst <$> entries) → obj_set key v entries = entries ++ [(key, v)].
Proof.
  induction entries as [|[k w] entries IH]; cbn; [done|].
  intros Hk. apply not_elem_of_cons in Hk as [Hne Hk].
  rewrite decide_False by done. by rewrite IH.
Qed.

(** Looking up a key that occurs once. *)
Lemma obj_get_NoDup key v entries :
  NoDup (fst <$> entries) → (key, v) ∈ entries →
  obj_get key entries = Some v.
Proof.
  induction entries as [|[k w] entries IH]; intros Hnd Hin.
  - by apply elem_of_nil in Hin.
  - cbn in Hnd. apply NoDup_cons in Hnd as [Hk Hnd]. cbn.
    apply elem_of_cons in Hin as [[= -> ->]|Hin].
    + by rewrite decide_True.
    + rewrite decide_False; [by apply IH|].
      intros ->. apply Hk. apply list_elem_of_fmap. by exists (key, v).
Qed.

(** With keys that do not repeat, as [Object.entries] gives them, the
    loop adds the generated properties in the order of the entries, and
    passes over the key [__proto__]. *)
Lemma example_properties_spec rt entries :
  NoDup (fst <$> entries) →
  example_properties rt entries
  = (λ e, (e.1, example_property rt e.1 e.2))
    <$> filter (λ e, e.1 ≠ "__proto__") entries.
Proof.
  unfold example_properties.
  assert (∀ acc,
            NoDup ((fst <$> acc) ++ (fst <$> entries)) →
            foldl (fun properties '(key, value) =>
                     obj_assign key (example_property rt key value)
                                properties) acc entries
            = acc ++ ((λ e, (e.1, example_property rt e.1 e.2))
                      <$> filter (λ e, e.1 ≠ "__proto__") entries)) as Hgen.
  { induction entries as [|[k v] entries IH]; intros acc Hnd.
    - cbn. by rewrite app_nil_r.
    - cbn [foldl]. cbn [fmap list_fmap fst] in Hnd.
      apply NoDup_app in Hnd as (Hacc & Hdis & Hrest).
      apply NoDup_cons in Hrest as [Hk Hrest].
      unfold obj_assign at 2.
      destruct (decide (k = "__proto__")) as [->|Hne].
      + rewrite filter_cons_False by (cbn; intros H; by apply H).
        apply IH. apply NoDup_app. split; [done|]. split; [|done].
        intros x Hx Hx'. apply (Hdis x Hx). by apply list_elem_of_further.
      + rewrite filter_cons_True by done.
        rewrite obj_set_fresh.
        2: { intros Hin. apply (Hdis k Hin). apply list_elem_of_here. }
        rewrite IH.
        * cbn [fmap list_fmap fst snd]. by rewrite <- app_assoc.
        * rewrite fmap_app. cbn [fmap list_fmap fst].
          rewrite <- app_assoc. cbn [app].
          apply NoDup_app. split; [done|]. split.
          { intros x Hx Hx'. apply (Hdis x Hx). done. }
          by apply NoDup_cons. }
  intros Hnd. by rewrite Hgen.
Qed.

(** X8.  When the example run input parses to a record whose keys do
    not repeat, the schema synthesized from it has exactly one property
    per key other than [__proto__], in the order of the record, and no
    property for [__proto__]; the property of a key is the one generated
    from its value, titled with the key's first letter capitalized and
    described by the key's name.  The schema is an object schema without
    a [required] list. *)
Theorem synthesize_from_example_properties rt d body parsed entries :
  truthy_string body = true →
  JSON_parse rt body = Some parsed →
  Object_entries parsed = Some entries →
  NoDup (fst <$> entries) →
  ∃ s,
    synthesize_from_example rt d body None = Some s
    ∧ s_type s = "object"
    ∧ s_required s = None
    ∧ fst <$> s_properties s
      = fst <$> filter (λ e, e.1 ≠ "__proto__") entries
    ∧ ("__proto__" ∉ fst <$> s_properties s)
    ∧ ∀ key value, (key, value) ∈ entries → key ≠ "__proto__" →
        ∃ property,
          obj_get key (s_properties s) = Some (JObj property)
          ∧ JObj property = example_property rt key value
          ∧ obj_get "title" property
            = Some (JStr (toUpperCase rt (charAt0 key) +:+ slice1 key))
          ∧ obj_get "description" property
            = Some (JStr ("Input parameter: " +:+ key)).
Proof.
  intros Hbody Hparse Hentries Hnd.
  unfold synthesize_from_example. rewrite Hbody, Hparse, Hentries.
  eexists. split; [reflexivity|]. cbn [with_properties s_type s_required
                                       s_properties example_shell].
  rewrite (example_properties_spec rt entries Hnd).
  assert (fst <$> ((λ e : string * JValue,
                      (e.1, example_property rt e.1 e.2))
                   <$> filter (λ e, e.1 ≠ "__proto__") entries)
          = fst <$> filter (λ e, e.1 ≠ "__proto__") entries) as Hkeys.
  { rewrite <- list_fmap_compose. by apply list_fmap_ext. }
  split; [done|]. split; [done|]. split; [exact Hkeys|]. split.
  { rewrite Hkeys. intros Hin. apply list_elem_of_fmap in Hin as ([k v] & Hk & Hin).
    apply list_elem_of_filter in Hin as [Hne _]. cbn in Hk, Hne. by subst k. }
  intros key value Hin Hne.
  rewrite (obj_get_NoDup key (example_property rt key value)).
  - unfold example_property.
    eexists. split; [reflexivity|]. split; [reflexivity|].
    destruct value as [|b|n|s|items|fields]; cbn; try done.
    destruct (50 <? Z.of_nat (String.length s))%Z; done.
  - rewrite Hkeys. apply (sublist_NoDup _ (fst <$> entries)); [done|].
    apply fmap_sublist, sublist_filter.
  - apply list_elem_of_fmap. exists (key, value). split; [done|].
    by apply list_elem_of_filter.
Qed.

(** The sample payload [{query: "foo", limit: 5, flag: true}]. *)
Lemma synthesize_from_example_properties_witness :
  ∃ s,
    synthesize_from_example sample_runtime detail_sample_example
      sample_body None = Some s
    ∧ s_type s = "object"
    ∧ s_required s = None
    ∧ fst <$> s_properties s
      = fst <$> filter (λ e, e.1 ≠ "__proto__")
                  [("query", JStr "foo"); ("limit", JNum 5%Q);
                   ("flag", JBool true)]
    ∧ ("__proto__" ∉ fst <$> s_properties s)
    ∧ ∀ key value,
        (key, value) ∈ [("query", JStr "foo"); ("limit", JNum 5%Q);
                        ("flag", JBool true)] →
        key ≠ "__proto__" →
        ∃ property,
          obj_get key (s_properties s) = Some (JObj property)
          ∧ JObj property = example_property sample_runtime key value
          ∧ obj_get "title" property
            = Some (JStr (toUpperCase sample_runtime (charAt0 key)
                          +:+ slice1 key))
          ∧ obj_get "description" property
            = Some (JStr ("Input parameter: " +:+ key)).
Proof.
  apply (synthesize_from_example_properties sample_runtime
           detail_sample_example sample_body sample_payload).
  - reflexivity.
  - reflexivity.
  - reflexivity.
  - compute_done.
Defined.

(** An example payload with the key [__proto__]: the assignment of its
    property adds no entry, and the schema has the property of [url]
    only. *)
Example example_properties_proto :
  example_properties sample_runtime
    [("__proto__", JStr "x"); ("url", JStr "u")]
  = [("url", JObj [("title", JStr "Url");
                   ("description", JStr "Input parameter: url");
                   ("type", JStr "string")])].
Proof. reflexivity. Qed.

(** ** [listActors]: requests and provenance, continued *)

(** The token of a header [Bearer k] is [k]. *)
Lemma bearer_token_bearer k : bearer_token (Some ("Bearer " +:+ k)) = Some k.
Proof. reflexivity. Qed.

Lemma lookup_requests_authorized key ids lookups rq :
  lookups `sublist_of` (lookup_request key <$> ids) →
  rq ∈ lookups → authorization rq = "Bearer " +:+ key.
Proof.
  intros Hsub Hrq. apply (sublist_elem _ _ _ Hsub) in Hrq.
  apply list_elem_of_fmap in Hrq as (c & -> & _). reflexivity.
Qed.

(** X9.  [listActors] makes no request without a credential; with one
    it requests the owned and the accessible listing, in this order,
    and then looks up curated actors, each at most once and in their
    fixed order: at most five requests in all.  Every request carries
    the caller's credential, and when the incoming header is
    [Bearer k] it carries that very header. *)
Theorem listActors_requests env header t0 :
  let key := default "" (bearer_token header) in
  ∃ reply w lookups,
    listActors env header (initial t0) = (Ret reply, w)
    ∧ log w
      = (if present (bearer_token header)
         then [get key "/acts?my=true&limit=100"; get key "/acts?limit=100"]
         else []) ++ lookups
    ∧ lookups `sublist_of` (lookup_request key <$> popularActors)
    ∧ (present (bearer_token header) = false → log w = [])
    ∧ (length (log w) ≤ 5)%nat
    ∧ all_authorized key w
    ∧ (∀ k, header = Some ("Bearer " +:+ k) →
            ∀ rq, rq ∈ log w → Some (authorization rq) = header).
Proof.
  intros key.
  destruct (listActors_trace env header t0)
    as (reply & w & reqs & extra & Hrun & Hlog & Hsub & Hshape).
  fold key in Hlog, Hsub.
  assert (all_authorized key w) as Hauth.
  { intros rq Hrq. rewrite Hlog in Hrq. apply elem_of_app in Hrq as [Hrq|Hrq].
    - destruct (present (bearer_token header));
        [|by apply elem_of_nil in Hrq].
      apply elem_of_cons in Hrq as [->|Hrq]; [done|].
      apply list_elem_of_singleton in Hrq. by subst rq.
    - by eapply lookup_requests_authorized. }
  exists reply, w, reqs. split; [done|]. split; [done|]. split; [done|].
  split; [|split; [|split; [done|]]].
  - intros Hk. rewrite Hlog, Hk. cbn [app].
    destruct Hshape as [(c & msg & _ & ->)|(Hk' & _)]; [done|congruence].
  - rewrite Hlog, length_app. apply sublist_length in Hsub.
    rewrite length_fmap in Hsub. cbn [length popularActors] in Hsub.
    destruct (present (bearer_token header)); cbn [length]; lia.
  - intros k -> rq Hrq. rewrite (Hauth rq Hrq). unfold key.
    by rewrite bearer_token_bearer.
Qed.

(** X10.  A success reply of [listActors] neither loses nor invents
    actors: every owned item is in it, every accessible item has its id
    in it, and each of its actors is an owned item, an accessible item
    or the actor of a successful curated lookup; at most three actors
    are curated additions. *)
Theorem listActors_provenance env header t0 :
  ∃ reply w,
    listActors env header (initial t0) = (Ret reply, w)
    ∧ (la_error (payload reply) = None →
       (∀ a, a ∈ listed (owned_listing env) → a ∈ actors (payload reply))
       ∧ (∀ a, a ∈ listed (accessible_listing env) →
               id a ∈ (id <$> actors (payload reply)))
       ∧ (∀ a, a ∈ actors (payload reply) →
               a ∈ listed (owned_listing env)
               ∨ a ∈ listed (accessible_listing env)
               ∨ ∃ c, c ∈ popularActors
                      ∧ looked_up (actor_detail env c) = Some a)
       ∧ (length (actors (payload reply))
          ≤ length (listed (owned_listing env))
            + length (listed (accessible_listing env)) + 3)%nat).
Proof.
  destruct (listActors_trace env header t0)
    as (reply & w & reqs & extra & Hrun & _ & Hsub & Hshape).
  exists reply, w. split; [done|].
  destruct Hshape as [(c & msg & -> & _)|(_ & -> & Hextra & Hlen)];
    [intros [=]|].
  intros _. cbn [payload actors success_reply]. unfold listing_union.
  split; [|split; [|split]].
  - intros a Ha. apply elem_of_app. left. by apply elem_of_app; left.
  - intros a Ha. rewrite !fmap_app.
    destruct (decide (id a ∈ (id <$> listed (owned_listing env))))
      as [Hin|Hnin].
    + apply elem_of_app. left. by apply elem_of_app; left.
    + apply elem_of_app. left. apply elem_of_app. right.
      apply list_elem_of_fmap_2. by apply list_elem_of_filter.
  - intros a Ha. apply elem_of_app in Ha as [Ha|Ha].
    + apply elem_of_app in Ha as [Ha|Ha]; [by left|].
      apply list_elem_of_filter in Ha as [_ Ha]. by right; left.
    + right; right. apply (sublist_elem _ _ _ Hextra) in Ha.
      apply list_elem_of_omap in Ha as (c & Hc & Hlook). by exists c.
  - rewrite !length_app.
    pose proof (length_filter (fun a => id a ∉ (id <$> listed (owned_listing env)))
                  (listed (accessible_listing env))).
    apply sublist_length in Hsub. rewrite length_fmap in Hsub.
    cbn [length popularActors] in Hsub. lia.
Qed.

(** ** [executeActor]: requests and envelope *)

Lemma not_ok_not_200 {T} (r : Response T) : ok r = false → status r ≠ 200.
Proof. unfold ok. intros Hok Heq. rewrite Heq in Hok. discriminate. Qed.

(** X11.  The requests of [executeActor]: none when the credential or
    the actor id is missing; otherwise exactly one submit request,
    followed by at most thirty status polls of the submitted run,
    followed by at most one dataset request, which is made exactly when
    the reply carries a run that SUCCEEDED.  A submit that fails is
    followed by nothing.  Every request carries the caller's credential,
    and a success reply comes no sooner than one poll interval per
    poll. *)
Theorem executeActor_requests env actorId input header t0 :
  let key := default "" (bearer_token header) in
  ∃ reply w polls tail,
    executeActor env actorId input header (initial t0) = (Ret reply, w)
    ∧ log w
      = (if present (bearer_token header) && truthy_string actorId
         then [submit_request key actorId input] else [])
        ++ polls ++ tail
    ∧ (length polls ≤ 30)%nat
    ∧ (∀ r run0, submit_answer env = Responded r → json r = Some run0 →
         polls = replicate (length polls) (poll_request key actorId run0)
         ∧ (tail = [] ∨ tail = [dataset_request key actorId run0]))
    ∧ (tail ≠ []
       ↔ ∃ finalRun, run (payload reply) = Some finalRun
                     ∧ run_status finalRun = SUCCEEDED)
    ∧ (listing_failed (submit_answer env) = true → polls = [] ∧ tail = [])
    ∧ all_authorized key w
    ∧ (ex_error (payload reply) = None →
       pollInterval * Z.of_nat (length polls) ≤ clock w - t0).
Proof.
  intros key.
  assert (∀ c msg (w : World),
            log w = (if present (bearer_token header)
                        && truthy_string actorId
                     then [submit_request key actorId input] else []) →
            ∃ reply w' polls tail,
              (Ret (not_executed c msg), w) = (Ret reply, w')
              ∧ log w'
                = (if present (bearer_token header) && truthy_string actorId
                   then [submit_request key actorId input] else [])
                  ++ polls ++ tail
              ∧ (length polls ≤ 30)%nat
              ∧ (∀ r run0, submit_answer env = Responded r →
                           json r = Some run0 →
                   polls = replicate (length polls)
                             (poll_request key actorId run0)
                   ∧ (tail = [] ∨ tail = [dataset_request key actorId run0]))
              ∧ (tail ≠ []
                 ↔ ∃ finalRun, run (payload reply) = Some finalRun
                               ∧ run_status finalRun = SUCCEEDED)
              ∧ (listing_failed (submit_answer env) = true →
                 polls = [] ∧ tail = [])
              ∧ all_authorized key w'
              ∧ (ex_error (payload reply) = None →
                 pollInterval * Z.of_nat (length polls) ≤ clock w' - t0))
    as Hearly.
  { intros c msg w Hlog. exists (not_executed c msg), w, [], [].
    split; [done|]. rewrite Hlog, !app_nil_r. split; [done|].
    split; [cbn; lia|]. split; [intros; split; [done | by left]|].
    split; [split; [done | by intros (? & [=] & _)]|].
    split; [done|]. split; [|intros [=]].
    intros rq Hrq. rewrite Hlog in Hrq.
    destruct (present (bearer_token header) && truthy_string actorId);
      [|by apply elem_of_nil in Hrq].
    apply list_elem_of_singleton in Hrq. by subst rq. }
  rewrite executeActor_run. fold key.
  destruct (present (bearer_token header)) eqn:Hk; cbn [negb andb].
  2: { by apply Hearly. }
  destruct (truthy_string actorId) eqn:Hid; cbn [negb].
  2: { by apply Hearly. }
  destruct (submit_answer env) as [|r] eqn:Hs.
  { by apply Hearly. }
  destruct (ok r) eqn:Hok; [destruct (json r) as [run0|] eqn:Hj|].
  2: { by apply Hearly. }
  2: { by apply Hearly. }
  pose proof (executeActor_run env actorId input header t0) as Hrun0.
  cbn zeta in Hrun0. fold key in Hrun0.
  rewrite Hk, Hid, Hs, Hok, Hj in Hrun0. cbn [negb] in Hrun0.
  rewrite <- Hrun0. clear Hrun0.
  destruct (executeActor_submitted_log env actorId input header t0 r run0
              Hk Hid Hs Hok Hj) as (m & tail' & Hm & Htail' & Hlog').
  fold key in Hlog', Htail'.
  assert (poll_request key actorId run0 ∉ tail') as Hnot'.
  { destruct Htail' as [-> | ->]; [apply not_elem_of_nil|].
    intros Hin. apply list_elem_of_singleton in Hin.
    by apply poll_not_dataset in Hin. }
  assert (∀ rq n tail,
            tail = [] ∨ tail = [dataset_request key actorId run0] →
            rq ∈ submit_request key actorId input
                 :: replicate n (poll_request key actorId run0) ++ tail →
            authorization rq = "Bearer " +:+ key) as Hauth.
  { intros rq n tail Htail Hrq.
    apply elem_of_cons in Hrq as [->|Hrq]; [done|].
    apply elem_of_app in Hrq as [Hrq|Hrq].
    - apply elem_of_replicate in Hrq as [-> _]. done.
    - destruct Htail as [-> | ->]; [by apply elem_of_nil in Hrq|].
      apply list_elem_of_singleton in Hrq. by subst rq. }
  destruct (executeActor_submitted env actorId input header t0 r run0
              Hk Hid Hs Hok Hj)
    as (n & w & _ & Hclock
        & [(Hrun & Hlog & _)|(Hrun & Hlog & _ & _)]); fold key in Hlog.
  - rewrite Hrun in Hlog'. cbn [snd] in Hlog'. rewrite Hlog in Hlog'.
    injection Hlog' as Hlog'.
    assert (n = m) as <-.
    { eapply replicate_app_inj; [| |exact Hlog']; [|done].
      destruct (decide (run_status (observed env run0 n) = SUCCEEDED));
        [|apply not_elem_of_nil].
      intros Hin. apply list_elem_of_singleton in Hin.
      by apply poll_not_dataset in Hin. }
    eexists _, w, (replicate n (poll_request key actorId run0)), _.
    split; [exact Hrun|]. split; [exact Hlog|].
    rewrite length_replicate. split; [done|].
    split; [|split; [|split; [|split]]].
    + intros r' run0' [= <-] Hj'. rewrite Hj in Hj'. injection Hj' as <-.
      split; [done|].
      destruct (decide (run_status (observed env run0 n) = SUCCEEDED)); auto.
    + cbn [payload run executed].
      destruct (decide (run_status (observed env run0 n) = SUCCEEDED))
        as [Hsucc|Hsucc].
      * split; [eauto | done].
      * split; [done|]. intros (fr & [= <-] & ?). done.
    + cbn. by rewrite Hok.
    + intros rq Hrq. rewrite Hlog in Hrq. eapply Hauth; [|exact Hrq].
      destruct (decide (run_status (observed env run0 n) = SUCCEEDED)); auto.
    + intros _. lia.
  - rewrite Hrun in Hlog'. cbn [snd] in Hlog'. rewrite Hlog in Hlog'.
    injection Hlog' as Hlog'.
    assert (S n = m) as Hnm.
    { eapply (replicate_app_inj _ (S n) m []); [| |by rewrite app_nil_r];
        [apply not_elem_of_nil | exact Hnot']. }
    eexists _, w, (replicate (S n) (poll_request key actorId run0)), [].
    split; [exact Hrun|]. rewrite app_nil_r. split; [exact Hlog|].
    rewrite length_replicate. split; [lia|].
    split; [|split; [|split; [|split]]].
    + intros r' run0' [= <-] Hj'. rewrite Hj in Hj'. injection Hj' as <-.
      split; [done | by left].
    + split; [done|]. by intros (fr & [=] & _).
    + cbn. by rewrite Hok.
    + intros rq Hrq. rewrite Hlog in Hrq.
      eapply (Hauth rq (S n) []); [by left | by rewrite app_nil_r].
    + intros [=].
Qed.

(** X12.  [executeActor] always replies, and its envelope is
    discriminated: the reply carries no error exactly when its status is
    200 and exactly when it carries a run.  A run is reported in a
    success envelope whatever its final status.  When the submit request
    is answered with a non-success status, the reply has that status and
    nothing but the submit request was made. *)
Theorem executeActor_envelope env actorId input header t0 :
  ∃ reply w,
    executeActor env actorId input header (initial t0) = (Ret reply, w)
    ∧ (ex_error (payload reply) = None ↔ code reply = 200)
    ∧ (ex_error (payload reply) = None ↔ is_Some (run (payload reply)))
    ∧ (is_Some (results (payload reply)) → ex_error (payload reply) = None)
    ∧ (∀ r, present (bearer_token header) = true →
            truthy_string actorId = true →
            submit_answer env = Responded r → ok r = false →
            code reply = status r
            ∧ log w = [submit_request (default "" (bearer_token header))
                         actorId input]).
Proof.
  assert (∀ c msg (w : World),
            c ≠ 200 →
            (∀ r, present (bearer_token header) = true →
                  truthy_string actorId = true →
                  submit_answer env = Responded r → ok r = false →
                  c = status r
                  ∧ log w = [submit_request (default "" (bearer_token header))
                               actorId input]) →
            ∃ reply w',
              (Ret (not_executed c msg), w) = (Ret reply, w')
              ∧ (ex_error (payload reply) = None ↔ code reply = 200)
              ∧ (ex_error (payload reply) = None
                 ↔ is_Some (run (payload reply)))
              ∧ (is_Some (results (payload reply)) →
                 ex_error (payload reply) = None)
              ∧ (∀ r, present (bearer_token header) = true →
                      truthy_string actorId = true →
                      submit_answer env = Responded r → ok r = false →
                      code reply = status r
                      ∧ log w'
                        = [submit_request (default "" (bearer_token header))
                             actorId input])) as Herr.
  { intros c msg w Hc Hst. exists (not_executed c msg), w.
    split; [done|]. cbn.
    split; [split; [intros [=] | done]|].
    split; [split; [intros [=] | by intros [? [=]]]|].
    split; [by intros [? [=]] | done]. }
  pose proof (executeActor_run env actorId input header t0) as Hrun.
  cbn zeta in Hrun.
  destruct (present (bearer_token header)) eqn:Hk; cbn [negb] in Hrun.
  2: { rewrite Hrun. apply Herr; [done|]. intros ? [=]. }
  destruct (truthy_string actorId) eqn:Hid; cbn [negb] in Hrun.
  2: { rewrite Hrun. apply Herr; [done|]. intros ? _ [=]. }
  destruct (submit_answer env) as [|r] eqn:Hs.
  { rewrite Hrun. apply Herr; [done|]. intros ? _ _ [=]. }
  destruct (ok r) eqn:Hok; [destruct (json r) as [run0|] eqn:Hj|].
  2: { rewrite Hrun. apply Herr; [done|]. intros r' _ _ [= <-] ?. congruence. }
  2: { rewrite Hrun. apply Herr; [by apply not_ok_not_200|].
       by intros r' _ _ [= <-] _. }
  clear Hrun.
  destruct (executeActor_submitted env actorId input header t0 r run0
              Hk Hid Hs Hok Hj)
    as (n & w & _ & _ & [(Hrun & _)|(Hrun & _)]).
  - rewrite Hrun. eexists _, _. split; [reflexivity|]. cbn.
    split; [done|]. split; [split; eauto|]. split; [done|].
    intros r' _ _ [= <-] ?. congruence.
  - rewrite Hrun. apply Herr; [done|]. intros r' _ _ [= <-] ?. congruence.
Qed.

(** X13.  Once a poll has shown the run with a status other than
    RUNNING, [executeActor] polls no more: when the answer to the
    [j]-th poll (counted from 0) is successful, readable and not
    RUNNING, at most [j + 1] polls are made. *)
Theorem executeActor_stops_polling env actorId input header t0 r run0
    j resp seen :
  present (bearer_token header) = true →
  truthy_string actorId = true →
  submit_answer env = Responded r → ok r = true → json r = Some run0 →
  poll_answer env j = Responded resp → ok resp = true →
  json resp = Some seen → run_status seen ≠ RUNNING →
  let key := default "" (bearer_token header) in
  ∃ reply w polls tail,
    executeActor env actorId input header (initial t0) = (Ret reply, w)
    ∧ log w
      = submit_request key actorId input
        :: replicate polls (poll_request key actorId run0) ++ tail
    ∧ (tail = [] ∨ tail = [dataset_request key actorId run0])
    ∧ (polls ≤ S j)%nat.
Proof.
  intros Hk Hid Hs Hok Hj Hp Hokp Hjp Hseen key.
  assert (observed env run0 (S j) = seen) as Hobs.
  { cbn [observed]. by rewrite Hp, Hokp, Hjp. }
  destruct (executeActor_submitted env actorId input header t0 r run0
              Hk Hid Hs Hok Hj)
    as (n & w & Hall & _
        & [(Hrun & Hlog & _)|(Hrun & Hlog & Hrunning & _)]);
    fold key in Hlog.
  - eexists _, w, n, _. split; [exact Hrun|]. split; [exact Hlog|].
    split.
    + destruct (decide (run_status (observed env run0 n) = SUCCEEDED)); auto.
    + destruct (decide (n ≤ S j)%nat) as [|Hgt]; [done|]. exfalso.
      destruct (Hall (S j)) as [Hst _]; [lia|]. by rewrite Hobs in Hst.
  - eexists _, w, (S n), []. split; [exact Hrun|]. rewrite app_nil_r.
    split; [exact Hlog|]. split; [by left|].
    destruct (decide (n ≤ j)%nat) as [|Hgt]; [lia|]. exfalso.
    destruct (decide (n = S j)) as [->|Hne].
    + by rewrite Hobs in Hrunning.
    + destruct (Hall (S j)) as [Hst _]; [lia|]. by rewrite Hobs in Hst.
Qed.

(** The second poll (number 1) shows the run SUCCEEDED. *)
Lemma executeActor_stops_polling_witness :
  let key := default "" (bearer_token bearer) in
  ∃ reply w polls tail,
    executeActor env_running_start "moJRLRc85AitArpNN" None bearer (initial 0)
    = (Ret reply, w)
    ∧ log w
      = submit_request key "moJRLRc85AitArpNN" None
        :: replicate polls (poll_request key "moJRLRc85AitArpNN"
                              (sample_run RUNNING)) ++ tail
    ∧ (tail = [] ∨ tail = [dataset_request key "moJRLRc85AitArpNN"
                             (sample_run RUNNING)])
    ∧ (polls ≤ 2)%nat.
Proof.
  apply (executeActor_stops_polling env_running_start "moJRLRc85AitArpNN"
           None bearer 0 (ok_response (sample_run RUNNING))
           (sample_run RUNNING) 1 (ok_response (sample_run SUCCEEDED))
           (sample_run SUCCEEDED)); try reflexivity.
  discriminate.
Defined.
